(** * RAG-MCP-Chatbot: a shallow embedding of the retrieval pipeline core

    The development embeds, module by module, the Python sources

    - [tools/document_processing.py]  ([PDFProcessor._chunk_text]),
    - [tools/response_tools.py]       ([ResponseFormatterTool._extract_section]),
    - [interfaces/api.py]             ([RateLimiter.check]),
    - [core/mcp_server.py]            ([MCPServer.execute_tool]),
    - [core/tool_registry.py]         ([ToolRegistry]),
    - [interfaces/cli.py]             ([CLIInterface._process_query]),

    and states the properties of the specification over these definitions.

    Conventions.  A Python [str] is a list of characters ([list ascii], a
    character being its code point below 256); a Python [int] is a [Z];
    a [dict] whose iteration order is irrelevant is a [gmap]; a [dict]
    whose listing is observed is an insertion-ordered association list;
    a [while] loop is a structurally recursive function over a bound on
    the number of iterations of its body, [None] meaning that the bound
    was reached before the loop condition became false. *)

From Stdlib Require Import ZArith QArith Lia Lqa Ascii String List Bool.
From stdpp Require Import base option list gmap strings.

Local Open Scope Z_scope.

(** ** Python strings *)

Module PyStr.

Abbreviation str := (list ascii).

(** A literal. *)
Definition lit (s : string) : str := list_ascii_of_string s.

(** [len(s)], for a string or a list *)
Definition len {A} (s : list A) : Z := Z.of_nat (length s).

(** [str.isspace] on one character: the code points below 256 that
    Python classifies as whitespace. *)
Definition is_space (c : ascii) : bool :=
  let n := N_of_ascii c in
  ((9 <=? n) && (n <=? 13) || (28 <=? n) && (n <=? 32)
   || (n =? 133) || (n =? 160))%N.

Definition newline : ascii := ascii_of_nat 10.
Definition space : ascii := " "%char.
Definition period : ascii := "."%char.

(** [s.replace(a, b)] for one-character [a] and [b]. *)
Definition replace_char (a b : ascii) (s : str) : str :=
  map (fun c => if Ascii.eqb c a then b else c) s.

(** [s.lstrip()], [s.rstrip()], [s.strip()] *)
Fixpoint lstrip (s : str) : str :=
  match s with
  | c :: s' => if is_space c then lstrip s' else s
  | [] => []
  end.

Definition rstrip (s : str) : str := rev (lstrip (rev s)).

Definition strip (s : str) : str := rstrip (lstrip s).

(** An index of a slice, as Python normalises it against the length
    [n]: a negative index counts from the end, and the result is
    clamped to [0..n]. *)
Definition slice_index (n i : Z) : Z :=
  if i <? 0 then Z.max 0 (i + n) else Z.min i n.

(** [s[a:b]], for a string or a list *)
Definition slice {A} (s : list A) (a b : Z) : list A :=
  let lo := slice_index (len s) a in
  let hi := slice_index (len s) b in
  drop (Z.to_nat lo) (take (Z.to_nat hi) s).

(** [s[:b]] *)
Definition slice_to {A} (s : list A) (b : Z) : list A := slice s 0 b.

(** [s.rfind(c)] for a one-character [c]: the highest index of [c],
    or [-1].  [rfind_from i] scans the suffix that starts at index
    [i]. *)
Fixpoint rfind_from (c : ascii) (i : Z) (s : str) : Z :=
  match s with
  | [] => -1
  | x :: s' =>
      let r := rfind_from c (i + 1) s' in
      if r =? -1 then (if Ascii.eqb x c then i else -1) else r
  end.

Definition rfind (c : ascii) (s : str) : Z := rfind_from c 0 s.

(** [s.split(c)] for a one-character separator: never empty. *)
Fixpoint split_char (c : ascii) (s : str) : list str :=
  match s with
  | [] => [[]]
  | x :: s' =>
      if Ascii.eqb x c then [] :: split_char c s'
      else match split_char c s' with
           | w :: ws => (x :: w) :: ws
           | [] => [[x]]
           end
  end.

(** [s.split()]: the maximal runs of non-whitespace characters.
    [split_ws_go cur s] carries the run being read, reversed. *)
Fixpoint split_ws_go (cur : str) (s : str) : list str :=
  match s with
  | [] => match cur with [] => [] | _ => [rev cur] end
  | x :: s' =>
      if is_space x
      then match cur with
           | [] => split_ws_go [] s'
           | _ => rev cur :: split_ws_go [] s'
           end
      else split_ws_go (x :: cur) s'
  end.

Definition split_ws (s : str) : list str := split_ws_go [] s.

(** [s.lower()] on code points below 256: the ASCII capitals and the
    Latin-1 capitals (the multiplication sign excepted) move up by
    32. *)
Definition lower_char (c : ascii) : ascii :=
  let n := N_of_ascii c in
  if ((65 <=? n) && (n <=? 90)
      || (192 <=? n) && (n <=? 222) && negb (n =? 215))%N
  then ascii_of_N (n + 32) else c.

Definition lower (s : str) : str := map lower_char s.

(** [s.startswith(p)] *)
Fixpoint startswith (p s : str) : bool :=
  match p, s with
  | [], _ => true
  | _ :: _, [] => false
  | a :: p', b :: s' => Ascii.eqb a b && startswith p' s'
  end.

(** [p in s]: [p] occurs as a substring of [s]. *)
Fixpoint contains (p s : str) : bool :=
  startswith p s ||
  match s with
  | [] => false
  | _ :: s' => contains p s'
  end.

(** [sep.join(parts)] *)
Fixpoint join (sep : str) (parts : list str) : str :=
  match parts with
  | [] => []
  | [p] => p
  | p :: ps => p ++ sep ++ join sep ps
  end.

End PyStr.

Import PyStr.

(** ** [tools/document_processing.py]: [PDFProcessor] *)

Module PDFProcessor.

(** The attributes set by [__init__]. *)
Record t := mk {
  chunk_size : Z;
  chunk_overlap : Z
}.

(** [PDFProcessor(chunk_size=1000, chunk_overlap=200)]: the
    constructor stores its two arguments and checks nothing. *)
Definition __init__ (chunk_size chunk_overlap : option Z) : t :=
  {| chunk_size := default 1000 chunk_size;
     chunk_overlap := default 200 chunk_overlap |}.

(** One execution of the loop body, at pointer [start]: the chunk cut
    (before [strip]) and the value of [end] after the adjustment to a
    sentence boundary. *)
Definition cut (self : t) (text : str) (start : Z) : str * Z :=
  let end_ := start + chunk_size self in
  let chunk := slice text start end_ in
  if end_ <? len text then
    let last_period := rfind period chunk in
    if negb (last_period =? -1) then
      (slice_to chunk (last_period + 1), start + last_period + 1)
    else (chunk, end_)
  else (chunk, end_).

(** The [while start < len(text)] loop; [text] is already normalised,
    [chunks] is the list built so far. *)
Fixpoint chunk_loop (fuel : nat) (self : t) (text : str)
    (start : Z) (chunks : list str) : option (list str) :=
  if start <? len text then
    match fuel with
    | O => None
    | S fuel' =>
        let '(chunk, end_) := cut self text start in
        chunk_loop fuel' self text (end_ - chunk_overlap self)
                   (chunks ++ [strip chunk])
    end
  else Some chunks.

(** [text.replace('\n', ' ').strip()] *)
Definition normalize (text : str) : str :=
  strip (replace_char newline space text).

(** [_chunk_text(self, text)], the loop body running at most [fuel]
    times. *)
Definition _chunk_text (fuel : nat) (self : t) (text : str)
    : option (list str) :=
  chunk_loop fuel self (normalize text) 0 [].

(** The same loop, recording for every iteration the pointer [start],
    the adjusted [end] and the chunk before [strip]. *)
Record step := mk_step {
  st_start : Z;
  st_end : Z;
  st_raw : str
}.

Fixpoint chunk_steps (fuel : nat) (self : t) (text : str) (start : Z)
    : option (list step) :=
  if start <? len text then
    match fuel with
    | O => None
    | S fuel' =>
        let '(chunk, end_) := cut self text start in
        cons (mk_step start end_ chunk)
          <$> chunk_steps fuel' self text (end_ - chunk_overlap self)
    end
  else Some [].

End PDFProcessor.

(** ** [tools/response_tools.py]: [ResponseFormatterTool] *)

Module ResponseFormatterTool.

(** [any(keyword in sentence.lower() for keyword in query.lower().split())] *)
Definition mentions (query sentence : str) : bool :=
  existsb (fun keyword => contains keyword (lower sentence))
          (split_ws (lower query)).

(** The [for idx, sentence in enumerate(sentences)] loop: the index of
    the first sentence that mentions a keyword, [start_idx]'s initial
    value [0] when the loop ends without [break]. *)
Fixpoint find_start (query : str) (idx : Z) (sentences : list str) : Z :=
  match sentences with
  | [] => 0
  | sentence :: rest =>
      if mentions query sentence then idx
      else find_start query (idx + 1) rest
  end.

Definition window_size : Z := 5.

(** [_extract_section(self, text, query)] *)
Definition _extract_section (text query : str) : str :=
  let sentences := split_char period text in
  let start_idx := find_start query 0 sentences in
  let context_window := slice sentences start_idx (start_idx + window_size) in
  join (lit ". ")
       (map strip (filter (fun s => strip s <> []) context_window))
    ++ lit ".".

End ResponseFormatterTool.

(** ** [interfaces/api.py]: [RateLimiter] *)

Module RateLimiter.

(** [time.time()] is an input of [check]: the instant [now], a
    rational number of seconds (every float is one).  [requests] maps
    a client to the instants of its admitted requests. *)
Record t := mk {
  requests : gmap string (list Q);
  rate_limit : Z;
  window : Q
}.

(** [RateLimiter(requests_per_minute=60)] *)
Definition __init__ (requests_per_minute : option Z) : t :=
  {| requests := ∅;
     rate_limit := default 60 requests_per_minute;
     window := 60%Q |}.

(** [now - t < self.window] *)
Definition recent (self : t) (now t0 : Q) : bool :=
  if Qlt_le_dec (now - t0) (window self) then true else false.

(** [check(self, client_id)] at instant [now]: the answer and the
    limiter afterwards. *)
Definition check (self : t) (client_id : string) (now : Q) : bool * t :=
  let client_requests := default [] (requests self !! client_id) in
  let client_requests := List.filter (recent self now) client_requests in
  if len client_requests >=? rate_limit self then (false, self)
  else
    let client_requests := client_requests ++ [now] in
    (true, {| requests := <[client_id := client_requests]> (requests self);
              rate_limit := rate_limit self;
              window := window self |}).

End RateLimiter.

(** ** Python values, exceptions and the log *)

Module Py.

#[warnings="-register-all"] Inductive value :=
| VNone
| VBool (b : bool)
| VInt (z : Z)
| VStr (s : string)
| VList (l : list value)
| VDict (d : list (string * value)).

(** [bool(v)], as [if v:] evaluates it. *)
Definition truthy (v : value) : bool :=
  match v with
  | VNone => false
  | VBool b => b
  | VInt z => negb (z =? 0)
  | VStr s => negb (String.eqb s EmptyString)
  | VList l => match l with [] => false | _ => true end
  | VDict d => match d with [] => false | _ => true end
  end.

(** A raised object: its class name, whether the class derives from
    [Exception] (all but [KeyboardInterrupt], [SystemExit],
    [GeneratorExit], [asyncio.CancelledError] and their like, which
    derive from [BaseException] only), and [str(e)]. *)
Record exception := mk_exception {
  exc_class : string;
  is_Exception : bool;
  exc_str : string
}.

Definition ValueError (msg : string) : exception :=
  mk_exception "ValueError" true msg.
Definition KeyError (msg : string) : exception :=
  mk_exception "KeyError" true msg.
Definition RuntimeError (msg : string) : exception :=
  mk_exception "RuntimeError" true msg.

(** The outcome of a call. *)
Inductive result (A : Type) :=
| Ok (a : A)
| Raise (e : exception).
Arguments Ok {A} a.
Arguments Raise {A} e.

Inductive log_level := INFO | WARNING | ERROR.

(** A record handed to the [logging] module. *)
Record log_record := mk_log {
  log_level_of : log_level;
  log_message : string
}.

End Py.

Import Py.

(** ** [core/mcp_server.py]: [MCPServer] *)

Module MCPServer.

Section WithWorld.

(** Everything the tool implementations read and write (the vector
    store, the language model and its conversation history, the
    file system).  The tools hold no reference to the server. *)
Variable W : Type.

Definition kwargs := list (string * value).

(** A registered callable: what a call with positional and keyword
    arguments does, what [inspect.iscoroutinefunction] answers for
    it, and the attributes [hasattr] finds on it. *)
Record callable := mk_callable {
  call : list value -> kwargs -> W -> result value * W;
  iscoroutinefunction : bool;
  attributes : gmap string value
}.

(** The server object: [self.tools] and whether [self.executor] was
    shut down. *)
Record t := mk {
  tools : gmap string callable;
  executor_shutdown : bool
}.

(** An entry of the call history, kept for the proofs only: the
    name a tool implementation ran under and the arguments it
    received. *)
Record invocation := mk_invocation {
  inv_tool : string;
  inv_args : list value;
  inv_kwargs : kwargs
}.

(** The process around the server: the world of the tools, the log,
    and the call history. *)
Record env := mk_env {
  world : W;
  log : list log_record;
  calls : list invocation
}.

Definition logging (lvl : log_level) (msg : string) (e : env) : env :=
  {| world := world e;
     log := log e ++ [mk_log lvl msg];
     calls := calls e |}.

(** [MCPServer()] *)
Definition __init__ : t := {| tools := ∅; executor_shutdown := false |}.

(** [register_tool(self, name, tool)] *)
Definition register_tool (self : t) (name : string) (tool : callable)
    (e : env) : t * env :=
  ({| tools := <[name := tool]> (tools self);
      executor_shutdown := executor_shutdown self |},
   logging INFO ("Registered tool: " +:+ name) e).

(** Running the implementation of [tool] on the arguments it is
    handed. *)
Definition run (name : string) (tool : callable)
    (args : list value) (kw : kwargs) (e : env) : result value * env :=
  let '(r, w) := call tool args kw (world e) in
  (r, {| world := w;
         log := log e;
         calls := calls e ++ [mk_invocation name args kw] |}).

(** [loop.run_in_executor(self.executor, tool, *args)]: the pool
    calls [tool] on the positional arguments alone; a pool that was
    shut down refuses the submission. *)
Definition run_in_executor (self : t) (name : string) (tool : callable)
    (args : list value) (e : env) : result value * env :=
  if executor_shutdown self
  then (Raise (RuntimeError "cannot schedule new futures after shutdown"), e)
  else run name tool args [] e.

(** [execute_tool(self, tool_name, *args, **kwargs)] *)
Definition execute_tool (self : t) (tool_name : string)
    (args : list value) (kw : kwargs) (e : env)
    : result value * t * env :=
  match tools self !! tool_name with
  | None =>
      (Raise (ValueError ("Tool " +:+ tool_name +:+ " not registered")),
       self, e)
  | Some tool =>
      let '(r, e1) :=
        if iscoroutinefunction tool
        then run tool_name tool args kw e
        else run_in_executor self tool_name tool args e in
      match r with
      | Ok v => (Ok v, self, e1)
      | Raise ex =>
          if is_Exception ex
          then (Raise ex, self,
                logging ERROR ("Error executing tool " +:+ tool_name
                               +:+ ": " +:+ exc_str ex) e1)
          else (Raise ex, self, e1)
      end
  end.

(** [cleanup(self)] *)
Definition cleanup (self : t) : t :=
  {| tools := tools self; executor_shutdown := true |}.

End WithWorld.

Arguments mk_callable {W} _ _ _.
Arguments call {W} _ _ _ _.
Arguments iscoroutinefunction {W} _.
Arguments attributes {W} _.
Arguments mk {W} _ _.
Arguments tools {W} _.
Arguments executor_shutdown {W} _.
Arguments mk_env {W} _ _ _.
Arguments world {W} _.
Arguments log {W} _.
Arguments calls {W} _.
Arguments logging {W} _ _ _.
Arguments __init__ {W}.
Arguments register_tool {W} _ _ _ _.
Arguments run {W} _ _ _ _ _.
Arguments run_in_executor {W} _ _ _ _ _.
Arguments execute_tool {W} _ _ _ _ _.
Arguments cleanup {W} _.

End MCPServer.

(** ** Insertion-ordered dictionaries *)

Module PyDict.

(** A [dict] with string keys, as the sequence of its items in
    insertion order. *)
Definition dict (V : Type) : Type := list (string * V).

(** [d.get(k)] *)
Fixpoint get {V} (k : string) (d : dict V) : option V :=
  match d with
  | [] => None
  | (k', v) :: d' => if String.eqb k k' then Some v else get k d'
  end.

(** [k in d] *)
Definition mem {V} (k : string) (d : dict V) : bool :=
  match get k d with Some _ => true | None => false end.

(** [d[k] = v]: an existing key keeps its position. *)
Fixpoint set {V} (k : string) (v : V) (d : dict V) : dict V :=
  match d with
  | [] => [(k, v)]
  | (k', v') :: d' =>
      if String.eqb k k' then (k, v) :: d' else (k', v') :: set k v d'
  end.

(** [del d[k]]: [None] is the [KeyError] of an absent key. *)
Fixpoint del {V} (k : string) (d : dict V) : option (dict V) :=
  match d with
  | [] => None
  | (k', v') :: d' =>
      if String.eqb k k' then Some d'
      else cons (k', v') <$> del k d'
  end.

(** [list(d)], the keys in order. *)
Definition keys {V} (d : dict V) : list string := map fst d.

(** [{k: f(v) for k, v in d.items()}] *)
Definition comprehension {V V'} (f : V -> V') (d : dict V) : dict V' :=
  fold_left (fun acc kv => set (fst kv) (f (snd kv)) acc) d [].

(** How many items of [d] have the key [k]. *)
Definition occurrences {V} (k : string) (d : dict V) : nat :=
  length (List.filter (String.eqb k) (keys d)).

End PyDict.

(** ** [core/tool_registry.py]: [ToolRegistry] *)

Module ToolRegistry.

Import PyDict.

Inductive ToolCategory := DOCUMENT | SEARCH | LLM | UTILITY | OTHER.

(** [for category in ToolCategory] *)
Definition all_categories : list ToolCategory :=
  [DOCUMENT; SEARCH; LLM; UTILITY; OTHER].

Definition category_eqb (a b : ToolCategory) : bool :=
  match a, b with
  | DOCUMENT, DOCUMENT | SEARCH, SEARCH | LLM, LLM
  | UTILITY, UTILITY | OTHER, OTHER => true
  | _, _ => false
  end.

(** What the registry hands to [logging.info]. *)
Inductive event :=
| Registered (name : string) (category : ToolCategory)
| Removed (name : string)
| Cleared.

Section WithCallable.

(** The registered functions, and [inspect.iscoroutinefunction]. *)
Variable Callable : Type.
Variable iscoroutinefunction : Callable -> bool.

Record ToolMetadata := mk_metadata {
  name : string;
  description : string;
  category : ToolCategory;
  async_support : bool;
  version : string
}.

Record Tool := mk_tool {
  func : Callable;
  metadata : ToolMetadata;
  is_async : bool
}.

(** [Tool(func, metadata)] *)
Definition Tool__init__ (func : Callable) (metadata : ToolMetadata) : Tool :=
  {| func := func; metadata := metadata;
     is_async := iscoroutinefunction func |}.

(** [self._tools] and [self._categories]; the latter has one inner
    dictionary per category from construction on. *)
Record t := mk {
  _tools : dict Tool;
  _categories : ToolCategory -> dict Tool
}.

(** [ToolRegistry()] *)
Definition __init__ : t :=
  {| _tools := []; _categories := fun _ => [] |}.

(** [self._categories[c] = d] *)
Definition set_category (c : ToolCategory) (d : dict Tool)
    (cats : ToolCategory -> dict Tool) : ToolCategory -> dict Tool :=
  fun c' => if category_eqb c c' then d else cats c'.

(** [register(self, name, description, category, version)(func)]:
    the decorator applied to [func]. *)
Definition register (self : t) (name description : string)
    (category : option ToolCategory) (version : option string)
    (func : Callable) : t * event :=
  let category := default OTHER category in
  let version := default "1.0.0"%string version in
  let metadata := mk_metadata name description category
                    (iscoroutinefunction func) version in
  let tool := Tool__init__ func metadata in
  ({| _tools := set name tool (_tools self);
      _categories :=
        set_category category (set name tool (_categories self category))
                     (_categories self) |},
   Registered name category).

(** [get_tool(self, name)] *)
Definition get_tool (self : t) (name : string) : option Tool :=
  get name (_tools self).

(** [list_tools(self, category=None)]; every category is truthy. *)
Definition list_tools (self : t) (category : option ToolCategory)
    : dict ToolMetadata :=
  match category with
  | Some c => comprehension metadata (_categories self c)
  | None => comprehension metadata (_tools self)
  end.

(** [remove_tool(self, name)]: the answer, the registry afterwards
    and what was logged.  The second [del] raises [KeyError] when the
    category index lacks the name. *)
Definition remove_tool (self : t) (name : string)
    : result bool * t * list event :=
  match get name (_tools self) with
  | Some tool =>
      let tools' := default (_tools self) (del name (_tools self)) in
      let c := category (metadata tool) in
      match del name (_categories self c) with
      | Some d =>
          (Ok true,
           {| _tools := tools';
              _categories := set_category c d (_categories self) |},
           [Removed name])
      | None =>
          (Raise (KeyError name),
           {| _tools := tools'; _categories := _categories self |}, [])
      end
  | None => (Ok false, self, [])
  end.

(** [clear(self)] *)
Definition clear (self : t) : t * event :=
  ({| _tools := []; _categories := fun _ => [] |}, Cleared).

(** A call on the registry, and a sequence of calls from a fresh
    registry. *)
Inductive op :=
| Register (name description : string) (category : option ToolCategory)
           (version : option string) (func : Callable)
| Remove (name : string)
| Clear.

Definition apply_op (self : t) (o : op) : t :=
  match o with
  | Register n d c v f => fst (register self n d c v f)
  | Remove n => snd (fst (remove_tool self n))
  | Clear => fst (clear self)
  end.

Definition run_ops (ops : list op) : t := fold_left apply_op ops __init__.

(** In how many items of the per-category listings, all categories
    together, [n] is the key. *)
Definition category_occurrences (self : t) (n : string) : nat :=
  list_sum (map (fun c => occurrences n (list_tools self (Some c)))
                all_categories).

End WithCallable.

Arguments mk_metadata _ _ _ _ _ : clear implicits.
Arguments name _ : clear implicits.
Arguments category _ : clear implicits.
Arguments mk_tool {Callable} _ _ _.
Arguments func {Callable} _.
Arguments metadata {Callable} _.
Arguments is_async {Callable} _.
Arguments mk {Callable} _ _.
Arguments _tools {Callable} _.
Arguments _categories {Callable} _ _.
Arguments __init__ {Callable}.
Arguments get_tool {Callable} _ _.
Arguments list_tools {Callable} _ _.
Arguments remove_tool {Callable} _ _.
Arguments clear {Callable} _.
Arguments Register {Callable} _ _ _ _ _.
Arguments Remove {Callable} _.
Arguments Clear {Callable}.
Arguments category_occurrences {Callable} _ _.

End ToolRegistry.

(** ** [interfaces/cli.py]: [CLIInterface] *)

Module CLIInterface.

Import MCPServer.

Section WithWorld.

Variable W : Type.

(** The attributes [_process_query] touches: [self.mcp] and
    [self.conversation_history], absent until first assigned. *)
Record t := mk {
  mcp : MCPServer.t W;
  conversation_history : option value
}.

(** A step of the method body: it may raise, and it updates the
    interface object and the process. *)
Definition M (A : Type) : Type := t -> env W -> result A * t * env W.

Definition ret {A} (a : A) : M A := fun self e => (Ok a, self, e).

Definition bind {A B} (m : M A) (k : A -> M B) : M B :=
  fun self e =>
    match m self e with
    | (Ok a, self', e') => k a self' e'
    | (Raise ex, self', e') => (Raise ex, self', e')
    end.

#[local] Instance M_ret : MRet M := @ret.
#[local] Instance M_bind : MBind M := fun A B k m => bind m k.

(** [await self.mcp.execute_tool(tool_name, *args)] *)
Definition await_execute_tool (tool_name : string) (args : list value)
    : M value :=
  fun self e =>
    let '(r, mcp', e') := execute_tool (mcp self) tool_name args [] e in
    (r, {| mcp := mcp';
           conversation_history := conversation_history self |}, e').

(** [self.mcp.tools[key]] *)
Definition tools_getitem (key : string) : M (callable W) :=
  fun self e =>
    match tools (mcp self) !! key with
    | Some tool => (Ok tool, self, e)
    | None => (Raise (KeyError key), self, e)
    end.

(** [self.conversation_history = v] *)
Definition set_conversation_history (v : value) : M unit :=
  fun self e =>
    (Ok tt, {| mcp := mcp self; conversation_history := Some v |}, e).

(** [try: body except Exception as e: handler(e)] *)
Definition try_except_Exception {A} (body : M A)
    (handler : exception -> M A) : M A :=
  fun self e =>
    match body self e with
    | (Raise ex, self', e') =>
        if is_Exception ex then handler ex self' e'
        else (Raise ex, self', e')
    | ok => ok
    end.

(** [logging.error(msg)] *)
Definition logging_error (msg : string) : M unit :=
  fun self e => (Ok tt, self, logging ERROR msg e).

Definition apology : string :=
  "I apologize, but I'm having trouble processing your request. Please try again.".

(** [_process_query(self, query)] *)
Definition _process_query (query : string) : M (value * value * bool) :=
  try_except_Exception
    (results ← await_execute_tool "query_vector_store" [VStr query];
     context ← (if truthy results
                then await_execute_tool "format_response"
                       [VStr query; results]
                else mret VNone);
     response ← await_execute_tool "generate_response"
                  [VStr query; context];
     tool ← tools_getitem "generate_response";
     _ ← match attributes tool !! "conversation_history" with
         | Some h => set_conversation_history h
         | None => mret tt
         end;
     mret (response, results, false))
    (fun ex =>
       _ ← logging_error ("Error processing query: " +:+ exc_str ex);
       mret (VStr apology, VList [], false)).

End WithWorld.

Arguments mk {W} _ _.
Arguments mcp {W} _.
Arguments conversation_history {W} _.
Arguments _process_query {W} _ _ _.

End CLIInterface.

(** ** The vocabulary of the chunking properties *)

Module Chunking.

Import PDFProcessor.

(** [⌈a / b⌉] for [b > 0]; not positive when [a] is not. *)
Definition ceil_div (a b : Z) : Z := (a + b - 1) / b.

(** The loop pointers a text can be cut at. *)
Definition starts (text : str) : list Z :=
  map Z.of_nat (seq 0 (length text)).

(** What a sentence back-off at pointer [start] keeps of its window:
    the number of characters up to and including the last period, or
    [None] when the window reaches the end of the text or holds no
    period. *)
Definition backoff_at (self : t) (text : str) (start : Z) : option Z :=
  let end_ := start + chunk_size self in
  if end_ <? len text then
    let last_period := rfind period (slice text start end_) in
    if negb (last_period =? -1) then Some (last_period + 1) else None
  else None.

(** The window cut at pointer [start] ends where it was first put, at
    [start + chunk_size]: it does not back off, or the back-off keeps
    all of it. *)
Definition full_window (self : t) (text : str) (start : Z) : bool :=
  snd (cut self text start) =? start + chunk_size self.

(** The windows the loop visits from pointer [start] on are full, the
    loop being followed for [fuel] iterations. *)
Fixpoint full_windows (fuel : nat) (self : t) (text : str) (start : Z)
    : bool :=
  if start <? len text then
    match fuel with
    | O => true
    | S fuel' =>
        full_window self text start
        && full_windows fuel' self text
             (snd (cut self text start) - chunk_overlap self)
    end
  else true.

(** Every back-off keeps more than [chunk_overlap] characters. *)
Definition progress_ok (self : t) (text : str) : bool :=
  forallb (fun s => match backoff_at self text s with
                    | None => true
                    | Some kept => chunk_overlap self <? kept
                    end) (starts text).

(** [c1] ends with the [overlap] characters [c2] begins with. *)
Definition overlap_exactly (overlap : Z) (c1 c2 : str) : bool :=
  (overlap <=? len c1) && (overlap <=? len c2)
  && bool_decide (slice c1 (len c1 - overlap) (len c1) = slice_to c2 overlap).

(** Every two consecutive chunks overlap by exactly [overlap]
    characters. *)
Fixpoint exact_overlap (overlap : Z) (chunks : list str) : bool :=
  match chunks with
  | c1 :: rest =>
      match rest with
      | c2 :: _ => overlap_exactly overlap c1 c2 && exact_overlap overlap rest
      | [] => true
      end
  | [] => true
  end.

(** The chunks concatenated with the overlaps removed: the first
    chunk, then every later chunk without its first [overlap]
    characters. *)
Definition reassemble (overlap : Z) (chunks : list str) : str :=
  match chunks with
  | [] => []
  | c :: rest => c ++ concat (map (fun c' => slice c' overlap (len c')) rest)
  end.

(** Every window but the first starts [overlap] characters before the
    end of the window before it. *)
Fixpoint chained (overlap : Z) (tr : list step) : Prop :=
  match tr with
  | s1 :: rest =>
      match rest with
      | s2 :: _ => st_start s2 = st_end s1 - overlap /\ chained overlap rest
      | [] => True
      end
  | [] => True
  end.

(** The chunks returned for the recorded iterations. *)
Definition stripped (tr : list step) : list str :=
  map (fun s => strip (st_raw s)) tr.

End Chunking.

(** ** Sample data *)

Module Samples.

Import MCPServer.

(** A vector-query capability whose store is unreachable. *)
Definition failing_query : callable unit :=
  mk_callable (fun _ _ w => (Raise (RuntimeError "vector store unavailable"), w))
              true ∅.

(** A capability that answers with what it was handed: the number of
    positional and of keyword arguments. *)
Definition echo (coroutine : bool) : callable unit :=
  mk_callable (fun args kw w =>
                 (Ok (VList [VInt (len args); VInt (len kw)]), w))
              coroutine ∅.

Definition server : MCPServer.t unit :=
  mk (<["query_vector_store" := failing_query]>
        (<["echo_sync" := echo false]> (<["echo_async" := echo true]> ∅)))
     false.

Definition process : env unit := mk_env tt [] [].

(** A text whose back-offs keep whole sentences, and one without
    periods. *)
Definition sentences : str :=
  lit " Alpha beta. Gamma delta. Epsilon zeta. Eta theta. ".
Definition plain : str := lit "no sentence ends here at all".

Definition parking_query : str := lit "What are visitor parking hours?".
Definition parking_text : str :=
  lit "Visitor parking is open from 6am to 10pm daily. Overnight parking requires a permit.".

End Samples.

From Stdlib Require Import Sorting.Sorted.
From stdpp Require Import pretty.

Local Open Scope Z_scope.

Import PyStr Py.

(** ** More of [tools/document_processing.py]: [PDFProcessor.process] *)

Module PDFDocuments.

Import PDFProcessor.

(** The keys [process] puts in a document's [metadata]. *)
Record Metadata := mk_metadata {
  source : string;
  type : string;
  chunk : Z;
  total_chunks : Z;
  pages : string;
  size : Z;
  modified : Q
}.

Record Document := mk_document {
  file_path : string;
  content : str;
  metadata : Metadata
}.

(** What the file system and the PDF reader hand to [process]: the
    base name, size and modification time of the file, and the text
    extracted from each page. *)
Record PdfFile := mk_file {
  pdf_path : string;
  pdf_basename : string;
  pdf_size : Z;
  pdf_modified : Q;
  pdf_pages : list str
}.

(** The [for page in reader.pages] loop: every page's text followed by
    a newline. *)
Definition full_text (pages : list str) : str :=
  concat (map (fun page => page ++ [newline]) pages).

(** The [for i, chunk in enumerate(chunks)] loop, [i] counting on from
    [first]. *)
Fixpoint documents_from (file : PdfFile) (total : Z) (first : Z)
    (chunks : list str) : list Document :=
  match chunks with
  | [] => []
  | chunk :: rest =>
      mk_document (pdf_path file) chunk
        (mk_metadata (pdf_basename file) "pdf" first total
                     (pretty (len (pdf_pages file))) (pdf_size file)
                     (pdf_modified file))
      :: documents_from file total (first + 1) rest
  end.

(** [process(self, file_path)] on a file that opens and parses, its
    chunking loop running at most [fuel] times: [Some None] is the
    [None] returned for a file without text. *)
Definition process (fuel : nat) (self : t) (file : PdfFile)
    : option (option (list Document)) :=
  let text := full_text (pdf_pages file) in
  match strip text with
  | [] => Some None
  | _ :: _ =>
      (fun chunks => Some (documents_from file (len chunks) 0 chunks))
        <$> _chunk_text fuel self text
  end.

(** The fields of an [MCPContext]. *)
Record MCPContext := mk_context {
  context_id : string;
  context_type : string;
  context_content : str;
  context_metadata : Metadata
}.

(** [DocumentProcessingTool.to_mcp_context(self, doc)], for a document
    made by [process]. *)
Definition to_mcp_context (doc : Document) : MCPContext :=
  {| context_id := source (metadata doc) +:+ ":" +:+ pretty (chunk (metadata doc));
     context_type := "document";
     context_content := content doc;
     context_metadata := metadata doc |}.

End PDFDocuments.

(** ** Substrings *)

Module Substring.

(** [c] occurs in [s] as a run of consecutive characters. *)
Definition substring (c s : str) : Prop :=
  exists before after, s = before ++ c ++ after.

(** [s] neither begins nor ends with whitespace. *)
Definition trimmed (s : str) : Prop :=
  (forall c, head s = Some c -> is_space c = false)
  /\ (forall c, last s = Some c -> is_space c = false).

End Substring.

(** ** Requests served by [interfaces/api.py]: [RateLimiter] *)

Module RateLimiterRuns.

Import RateLimiter.

(** The [check] calls of a sequence of requests, each an identity and
    the instant of its check: the decisions in order, and the limiter
    afterwards. *)
Fixpoint serve (self : t) (reqs : list (string * Q))
    : list (string * Q * bool) * t :=
  match reqs with
  | [] => ([], self)
  | (client, now) :: rest =>
      let '(answer, self') := check self client now in
      let '(answers, self'') := serve self' rest in
      ((client, now, answer) :: answers, self'')
  end.

(** The instants at which [client] was admitted. *)
Fixpoint admitted (client : string) (decisions : list (string * Q * bool))
    : list Q :=
  match decisions with
  | [] => []
  | (c, now, answer) :: rest =>
      if answer && String.eqb c client then now :: admitted client rest
      else admitted client rest
  end.

(** The instants are in non-decreasing order. *)
Definition chronological (reqs : list (string * Q)) : Prop :=
  StronglySorted (fun a b => (snd a <= snd b)%Q) reqs.

(** The stored instants and the admitted instants of an identity agree
    on what is recent, at any instant from [lo] on. *)
Definition tracks (self : t) (adm : string -> list Q) (lo : Q) : Prop :=
  forall c now, (lo <= now)%Q ->
    List.filter (recent self now) (default [] (requests self !! c))
    = List.filter (recent self now) (adm c).

(** Stored histories are never empty and never longer than the limit. *)
Definition bounded (self : t) : Prop :=
  forall c l, requests self !! c = Some l -> 0 < len l <= rate_limit self.

End RateLimiterRuns.

(** ** [tools/llm_tools.py]: [OllamaTool] *)

Module OllamaTool.

(** An entry of [conversation_history]. *)
Record turn := mk_turn {
  user : str;
  assistant : str
}.

(** [_smart_truncate(self, text, max_length)] *)
Definition _smart_truncate (text : str) (max_length : Z) : str :=
  if len text <=? max_length then text
  else
    let truncated := slice_to text max_length in
    let last_period := rfind period truncated in
    if negb (last_period =? -1) then slice_to truncated (last_period + 1)
    else truncated.

(** [sum(word in item['assistant'].lower() for word in query.lower().split())] *)
Definition score (query : str) (item : turn) : Z :=
  len (List.filter (fun word => contains word (lower (assistant item)))
                   (split_ws (lower query))).

(** [sorted(pairs, key=..., reverse=True)]: the stable sort by
    decreasing key.  [insert_desc x l] puts [x] in front of the first
    element whose key is not above its own. *)
Fixpoint insert_desc {A} (key : A -> Z) (x : A) (l : list A) : list A :=
  match l with
  | [] => [x]
  | y :: l' =>
      if key x <? key y then y :: insert_desc key x l' else x :: y :: l'
  end.

Fixpoint sorted_desc {A} (key : A -> Z) (l : list A) : list A :=
  match l with
  | [] => []
  | x :: l' => insert_desc key x (sorted_desc key l')
  end.

(** The pairs of an item and its score, sorted. *)
Definition ranked (history : list turn) (query : str) : list (turn * Z) :=
  sorted_desc snd (map (fun item => (item, score query item)) history).

(** [_get_relevant_history(self, query, max_items=3)] *)
Definition _get_relevant_history (conversation_history : list turn)
    (query : str) (max_items : option Z) : list turn :=
  let max_items := default 3 max_items in
  match conversation_history with
  | [] => []
  | _ :: _ =>
      let scores := map (fun item => (item, score query item))
                        conversation_history in
      let relevant := slice_to (sorted_desc snd scores) max_items in
      map fst relevant
  end.

(** [f"User: {msg['user']}\nAssistant: {msg['assistant']}"] *)
Definition render_turn (msg : turn) : str :=
  lit "User: " ++ user msg ++ [newline] ++ lit "Assistant: " ++ assistant msg.

(** [_build_context(self, prompt, context, relevant_history)];
    [context] is [None] or a string. *)
Definition _build_context (prompt : str) (context : option str)
    (relevant_history : list turn) : str :=
  let parts :=
    match relevant_history with
    | [] => []
    | _ :: _ =>
        [lit "Previous conversation:" ++ [newline]
         ++ join [newline] (map render_turn relevant_history)]
    end in
  let parts :=
    match context with
    | Some (c :: context') =>
        parts ++ [lit "Reference information:" ++ [newline] ++ c :: context']
    | _ => parts
    end in
  let parts := parts ++ [lit "Current question: " ++ prompt] in
  join [newline; newline] parts.

(** The clients made by [AsyncClient()] are told apart by a serial
    number.  [_client_pool] and the number of the next client: *)
Record pool := mk_pool {
  _client_pool : list nat;
  next_client : nat
}.

(** [_get_client(self)] *)
Definition _get_client (p : pool) : nat * pool :=
  match _client_pool p with
  | [] =>
      let client := next_client p in
      (client, {| _client_pool := _client_pool p ++ [client];
                  next_client := S (next_client p) |})
  | client :: _ => (client, p)
  end.

(** [n] calls of [_get_client] in a row: the clients handed out. *)
Fixpoint get_clients (n : nat) (p : pool) : list nat * pool :=
  match n with
  | O => ([], p)
  | S n' =>
      let '(client, p') := _get_client p in
      let '(clients, p'') := get_clients n' p' in
      (client :: clients, p'')
  end.

Definition max_context_length : Z := 2000.

(** The tool object: the pool and [conversation_history]. *)
Record t := mk {
  clients : pool;
  conversation_history : list turn
}.

(** [generate_response(self, prompt, context)].  [generate] is the
    language model behind [client.generate]: from the client and the
    prompt it is sent to the text of its response, or the exception of
    a failed call.  The answer, the tool afterwards and what is logged. *)
Definition generate_response (generate : nat -> str -> result str)
    (self : t) (prompt : str) (context : option str)
    : result str * t * list log_record :=
  let context :=
    match context with
    | Some (c :: context') =>
        if len (c :: context') >? max_context_length
        then Some (_smart_truncate (c :: context') max_context_length)
        else context
    | _ => context
    end in
  let relevant_history :=
    _get_relevant_history (conversation_history self) prompt None in
  let conversation_context := _build_context prompt context relevant_history in
  let '(client, clients') := _get_client (clients self) in
  match generate client conversation_context with
  | Ok response =>
      (Ok response,
       {| clients := clients';
          conversation_history :=
            conversation_history self ++ [mk_turn prompt response] |},
       [])
  | Raise ex =>
      if is_Exception ex
      then (Ok (lit "I encountered an error processing your request: "
                ++ lit (exc_str ex)),
            {| clients := clients';
               conversation_history := conversation_history self |},
            [mk_log ERROR ("Error generating response: " +:+ exc_str ex)])
      else (Raise ex,
            {| clients := clients';
               conversation_history := conversation_history self |}, [])
  end.

End OllamaTool.

(** ** More of [tools/response_tools.py]: query classes and templates *)

Module ResponseTemplates.

(** The [classifiers] dictionary, in the order of its literal. *)
Definition classifiers : list (string * list string) :=
  [("greeting", ["hello"; "hi"; "hey"; "good"]);
   ("farewell", ["bye"; "goodbye"; "thank"]);
   ("help", ["help"; "assist"; "support"; "how"]);
   ("problem", ["error"; "issue"; "problem"; "wrong"]);
   ("information", ["what"; "tell"; "explain"; "describe"])]%string.

(** The [for q_type, keywords in classifiers.items()] loop. *)
Fixpoint classify_from (query_lower : str)
    (classes : list (string * list string)) : string :=
  match classes with
  | [] => "information"
  | (q_type, keywords) :: rest =>
      if existsb (fun word => contains (lit word) query_lower) keywords
      then q_type
      else classify_from query_lower rest
  end.

(** [_classify_query(self, query)] *)
Definition _classify_query (query : str) : string :=
  classify_from (lower query) classifiers.

(** [_format_response(self, content, query_type)]: the template of
    [query_type], the one of [information] when there is none. *)
Definition _format_response (content : str) (query_type : string) : str :=
  if String.eqb query_type "greeting" then lit "Hello! " ++ content
  else if String.eqb query_type "farewell"
  then content ++ lit " Feel free to return if you need help!"
  else if String.eqb query_type "error"
  then lit "I apologize, but " ++ content
       ++ lit ". How can I assist you differently?"
  else if String.eqb query_type "information"
  then lit "Here's what you need to know: " ++ content
  else if String.eqb query_type "instruction"
  then lit "Follow these steps: " ++ content
  else if String.eqb query_type "confirmation"
  then lit "Great! " ++ content
  else lit "Here's what you need to know: " ++ content.

End ResponseTemplates.

(** ** [utils/chat_store.py]: [ChatStore] *)

Module ChatStore.

(** [ChatMessage]; [sources] holds JSON values, which [json.dump]
    writes and [json.load] reads back as they are. *)
Record ChatMessage := mk_message {
  role : string;
  content : string;
  timestamp : string;
  sources : option (list value)
}.

(** An element of the JSON list a session file holds: a dict that
    [ChatMessage] accepts, as the message built from it, or anything
    else. *)
Inductive entry :=
| Message (message : ChatMessage)
| Other.

(** What is at a path that exists: a file that holds a JSON list, or
    something that [open], [json.load] or [history.append] rejects (a
    directory, a file that is not JSON, JSON that is no list). *)
Inductive file :=
| Stored (history : list entry)
| Unreadable.

(** The store and the file system it works on: [storage_path], what
    exists in the file system, by path, and [current_session]. *)
Record t := mk {
  storage_path : string;
  files : gmap string file;
  current_session : list ChatMessage
}.

(** [history = json.load(f)] when the file exists, [history = []]
    otherwise; [None] when an exception is raised. *)
Definition read_history (stored : option file) : option (list entry) :=
  match stored with
  | None => Some []
  | Some (Stored history) => Some history
  | Some Unreadable => None
  end.

(** [[ChatMessage( **msg) for msg in history]]; [None] when an element
    is rejected. *)
Fixpoint messages (history : list entry) : option (list ChatMessage) :=
  match history with
  | [] => Some []
  | Message message :: rest => cons message <$> messages rest
  | Other :: _ => None
  end.

Section WithFileSystem.

(** [pathlib] and the operating system: the file that the path
    [storage_path / name] names, two paths that name the same file being
    equal; whether [exists()] returns for a path, rather than raising
    the [OSError] of [stat]; whether [open(path, "w")] succeeds. *)
Variable joinpath : string -> string -> string.
Variable stat_ok : string -> bool.
Variable can_write : string -> bool.

(** [_get_session_file(self, session_id)] *)
Definition _get_session_file (self : t) (session_id : string) : string :=
  joinpath (storage_path self) (session_id +:+ ".json").

(** [add_message(self, session_id, message)]: every exception of the
    [try] block is caught and printed. *)
Definition add_message (self : t) (session_id : string)
    (message : ChatMessage) : t :=
  let current := current_session self ++ [message] in
  let session_file := _get_session_file self session_id in
  let unsaved := {| storage_path := storage_path self;
                    files := files self;
                    current_session := current |} in
  if stat_ok session_file then
    match read_history (files self !! session_file) with
    | Some history =>
        if can_write session_file then
          {| storage_path := storage_path self;
             files := <[session_file := Stored (history ++ [Message message])]>
                        (files self);
             current_session := current |}
        else unsaved
    | None => unsaved
    end
  else unsaved.

(** [get_session_history(self, session_id)]; [None] when [exists()],
    which is outside the [try] block, raises. *)
Definition get_session_history (self : t) (session_id : string)
    : option (list ChatMessage) :=
  let session_file := _get_session_file self session_id in
  if stat_ok session_file then
    match files self !! session_file with
    | None => Some []
    | Some (Stored history) =>
        match messages history with
        | Some loaded => Some loaded
        | None => Some []
        end
    | Some Unreadable => Some []
    end
  else None.



End WithFileSystem.



End ChatStore.

(** ** Consistency of [core/tool_registry.py]: [ToolRegistry] *)

Module ToolRegistryInv.

Import PyDict ToolRegistry.

(** The two dictionaries of a registry agree: no key is repeated; a
    tool stored under a name carries that name and is also stored, under
    the same name, in the dictionary of its category; and a tool stored
    in the dictionary of a category carries that category and the name
    it is stored under. *)
Definition consistent {Callable} (self : ToolRegistry.t Callable) : Prop :=
  List.NoDup (keys (_tools self))
  /\ (forall c, List.NoDup (keys (_categories self c)))
  /\ (forall n tool, get n (_tools self) = Some tool ->
        name (metadata tool) = n
        /\ get n (_categories self (category (metadata tool))) = Some tool)
  /\ (forall c n tool, get n (_categories self c) = Some tool ->
        category (metadata tool) = c /\ name (metadata tool) = n).

(** The items of a listing made from the dictionary [d]. *)
Definition listing {Callable} (d : dict (Tool Callable)) : dict ToolMetadata :=
  map (fun item => (fst item, metadata (snd item))) d.

End ToolRegistryInv.

(** ** Registrations in [core/mcp_server.py] *)

Module MCPServerRuns.

Import MCPServer.

(** [register_tool] called for each pair of a name and a tool, in
    order. *)
Fixpoint register_all {W} (self : MCPServer.t W)
    (regs : list (string * callable W)) (e : env W) : MCPServer.t W * env W :=
  match regs with
  | [] => (self, e)
  | (name, tool) :: rest =>
      let '(self', e') := register_tool self name tool e in
      register_all self' rest e'
  end.

(** The tool of the last pair with the name [name]. *)
Fixpoint last_registered {W} (name : string)
    (regs : list (string * callable W)) : option (callable W) :=
  match regs with
  | [] => None
  | (n, tool) :: rest =>
      match last_registered name rest with
      | Some later => Some later
      | None => if String.eqb n name then Some tool else None
      end
  end.

End MCPServerRuns.

(** ** Outcomes of the steps of [_process_query] *)

Module CLIOutcomes.

Import MCPServer CLIInterface.

(** Whatever the step [m] does, it leaves [self.mcp] as it was, and the
    value it returns satisfies [P]. *)
Definition returns {W A} (P : A -> Prop) (m : M W A) : Prop :=
  forall self e,
    mcp (snd (fst (m self e))) = mcp self
    /\ match fst (fst (m self e)) with
       | Ok a => P a
       | Raise _ => True
       end.

(** The history of implementation calls, extended by a call. *)
Definition called {W} (e : env W) (name : string) (args : list value)
    : list (invocation) :=
  calls e ++ [mk_invocation name args []].

End CLIOutcomes.

(** ** More sample data *)

Module MoreSamples.

(** A PDF file of two pages. *)
Definition report : PDFDocuments.PdfFile :=
  PDFDocuments.mk_file "files_data/report.pdf" "report.pdf" 2048 (17 # 1)%Q
    [lit " Alpha beta. Gamma delta."; lit "Epsilon zeta. Eta theta. "].

(** Requests of two identities, in the order of their instants. *)
Definition traffic : list (string * Q) :=
  [("a", 0); ("b", 1 # 2); ("a", 1); ("a", 2); ("a", 61)]%string%Q.

(** Calls on a registry whose callables are told apart by whether they
    are coroutine functions. *)
Definition registry_calls : list (ToolRegistry.op bool) :=
  [ToolRegistry.Register "search" "web search" (Some ToolRegistry.SEARCH) None true;
   ToolRegistry.Register "parse" "pdf parser" (Some ToolRegistry.DOCUMENT)
     (Some "2.0") false;
   ToolRegistry.Register "search" "vector search" (Some ToolRegistry.SEARCH)
     None false;
   ToolRegistry.Remove "parse";
   ToolRegistry.Register "answer" "language model" None None true]%string.

Definition registry : ToolRegistry.t bool :=
  ToolRegistry.run_ops bool (fun coroutine => coroutine) registry_calls.

(** A server whose vector store finds nothing and whose language model
    answers, and one whose vector store finds a passage. *)
Definition finds (results : value) : MCPServer.callable unit :=
  MCPServer.mk_callable (fun _ _ w => (Ok results, w)) true ∅.

Definition formatter : MCPServer.callable unit :=
  MCPServer.mk_callable (fun _ _ w => (Ok (VStr "context"), w)) true ∅.

Definition model : MCPServer.callable unit :=
  MCPServer.mk_callable (fun _ _ w => (Ok (VStr "answer"), w)) true ∅.

Definition pipeline (results : value) : MCPServer.t unit :=
  MCPServer.mk
    (<["query_vector_store" := finds results]>
       (<["format_response" := formatter]>
          (<["generate_response" := model]> ∅)))
    false.



End MoreSamples.

(** * Properties *)

(** ** The dispatcher *)

Module MCPServerFacts.

Import MCPServer.

Section WithWorld.

Context {W : Type}.
Implicit Types (self : MCPServer.t W) (e : env W) (tool : callable W).

(** [execute_tool] never replaces the server object. *)
Lemma execute_tool_self self name args kw e :
  snd (fst (execute_tool self name args kw e)) = self.
Proof.
  unfold execute_tool.
  destruct (tools self !! name) as [tool|]; [|reflexivity].
  destruct (if iscoroutinefunction tool then _ else _) as [[v|ex] e1];
    [reflexivity|].
  destruct (is_Exception ex); reflexivity.
Qed.

(** What [execute_tool] does once the implementation it runs has
    raised [ex] from [Exception]: the error is logged and raised
    again. *)
Lemma execute_tool_raises self name tool args kw e ex w' :
  tools self !! name = Some tool ->
  call tool args (if iscoroutinefunction tool then kw else []) (world e)
    = (Raise ex, w') ->
  is_Exception ex = true ->
  exists ex' e', execute_tool self name args kw e = (Raise ex', self, e')
                 /\ is_Exception ex' = true.
Proof.
  intros Hreg Hcall Hex. unfold execute_tool. rewrite Hreg.
  destruct (iscoroutinefunction tool) eqn:Hco.
  - unfold run. rewrite Hcall, Hex. eauto.
  - unfold run_in_executor, run.
    destruct (executor_shutdown self).
    + simpl. eauto.
    + rewrite Hcall, Hex. eauto.
Qed.

End WithWorld.

End MCPServerFacts.

(** C2. Invoking a name that is not registered fails with the
    not-registered error ([ValueError "Tool <name> not registered"]) and
    has no side effect: the server object (its tool mapping and its
    executor) and the process (the world of the tools, the log and the
    history of implementation calls, to which nothing is added) are
    those before the call. *)
Theorem execute_tool_unregistered
    {W : Type} (self : MCPServer.t W) (tool_name : string)
    (args : list value) (kw : MCPServer.kwargs) (e : MCPServer.env W) :
  MCPServer.tools self !! tool_name = None ->
  MCPServer.execute_tool self tool_name args kw e
  = (Raise (ValueError ("Tool " +:+ tool_name +:+ " not registered")), self, e).
Proof.
  intros Hnone. unfold MCPServer.execute_tool. rewrite Hnone. reflexivity.
Qed.

Lemma execute_tool_unregistered_witness :
  MCPServer.execute_tool Samples.server "nonexistent_tool" [VInt 1]
                         [("k"%string, VInt 2)] Samples.process
  = (Raise (ValueError "Tool nonexistent_tool not registered"),
     Samples.server, Samples.process).
Proof.
  apply (execute_tool_unregistered Samples.server "nonexistent_tool").
  vm_compute. reflexivity.
Defined.

(** C10. For a registered synchronous tool (on a live executor) the
    implementation runs on the positional arguments and an empty keyword
    dictionary, whatever keyword arguments [execute_tool] was given: the
    call as a whole is the call without them.  For a registered
    coroutine tool the implementation runs on the positional and the
    keyword arguments. *)
Theorem execute_tool_argument_forwarding
    {W : Type} (self : MCPServer.t W) (tool_name : string)
    (tool : MCPServer.callable W)
    (args : list value) (kw : MCPServer.kwargs) (e : MCPServer.env W) :
  MCPServer.tools self !! tool_name = Some tool ->
  let out := MCPServer.execute_tool self tool_name args kw e in
  (MCPServer.iscoroutinefunction tool = false ->
     out = MCPServer.execute_tool self tool_name args [] e
     /\ (MCPServer.executor_shutdown self = false ->
         fst (fst out) = fst (MCPServer.call tool args [] (MCPServer.world e))
         /\ MCPServer.world (snd out)
            = snd (MCPServer.call tool args [] (MCPServer.world e))
         /\ MCPServer.calls (snd out)
            = MCPServer.calls e ++ [MCPServer.mk_invocation tool_name args []]))
  /\ (MCPServer.iscoroutinefunction tool = true ->
        fst (fst out) = fst (MCPServer.call tool args kw (MCPServer.world e))
        /\ MCPServer.world (snd out)
           = snd (MCPServer.call tool args kw (MCPServer.world e))
        /\ MCPServer.calls (snd out)
           = MCPServer.calls e ++ [MCPServer.mk_invocation tool_name args kw]).
Proof.
  intros Hreg out. subst out. unfold MCPServer.execute_tool. rewrite Hreg.
  split; intros Hco; rewrite Hco.
  - split; [reflexivity|]. intros Hlive.
    unfold MCPServer.run_in_executor, MCPServer.run. rewrite Hlive.
    destruct (MCPServer.call tool args [] (MCPServer.world e)) as [[v|ex] w].
    + simpl. auto.
    + destruct (is_Exception ex); simpl; auto.
  - unfold MCPServer.run.
    destruct (MCPServer.call tool args kw (MCPServer.world e)) as [[v|ex] w].
    + simpl. auto.
    + destruct (is_Exception ex); simpl; auto.
Qed.

Lemma execute_tool_argument_forwarding_witness :
  fst (fst (MCPServer.execute_tool Samples.server "echo_sync" [VInt 7]
              [("k"%string, VInt 2)] Samples.process))
  = Ok (VList [VInt 1; VInt 0])
  /\ fst (fst (MCPServer.execute_tool Samples.server "echo_async" [VInt 7]
                 [("k"%string, VInt 2)] Samples.process))
     = Ok (VList [VInt 1; VInt 1]).
Proof.
  split.
  - pose proof (execute_tool_argument_forwarding Samples.server "echo_sync"
                  (Samples.echo false) [VInt 7] [("k"%string, VInt 2)]
                  Samples.process) as H.
    destruct H as [Hsync _]; [vm_compute; reflexivity|].
    destruct Hsync as [_ Hrun]; [reflexivity|].
    destruct Hrun as [Hres _]; [reflexivity|]. exact Hres.
  - pose proof (execute_tool_argument_forwarding Samples.server "echo_async"
                  (Samples.echo true) [VInt 7] [("k"%string, VInt 2)]
                  Samples.process) as H.
    destruct H as [_ Hasync]; [vm_compute; reflexivity|].
    destruct Hasync as [Hres _]; [reflexivity|]. exact Hres.
Defined.

(** ** The query pipeline *)

(** C1. If the capability registered as [query_vector_store] raises an
    exception (an instance of [Exception]) on the query, then
    [_process_query] returns normally: its response is the apology
    string, which is not empty, its match list is empty, nothing is
    raised to the caller, and the error is the last record of the
    log. *)
Theorem process_query_degrades
    {W : Type} (self : CLIInterface.t W) (query : string)
    (e : MCPServer.env W) (tool : MCPServer.callable W)
    (ex : exception) (w' : W) :
  MCPServer.tools (CLIInterface.mcp self) !! "query_vector_store" = Some tool ->
  MCPServer.call tool [VStr query] [] (MCPServer.world e) = (Raise ex, w') ->
  is_Exception ex = true ->
  exists e',
    CLIInterface._process_query query self e
    = (Ok (VStr CLIInterface.apology, VList [], false), self, e')
    /\ CLIInterface.apology <> EmptyString
    /\ exists msg, last (MCPServer.log e') = Some (mk_log ERROR msg).
Proof.
  intros Hreg Hcall Hex.
  destruct (MCPServerFacts.execute_tool_raises (CLIInterface.mcp self)
              "query_vector_store" tool [VStr query] [] e ex w' Hreg)
    as (ex' & e' & Hrun & Hex'); [destruct (MCPServer.iscoroutinefunction tool); exact Hcall | exact Hex |].
  unfold CLIInterface._process_query, CLIInterface.try_except_Exception.
  unfold mbind at 1, CLIInterface.M_bind, CLIInterface.bind.
  unfold CLIInterface.await_execute_tool at 1. rewrite Hrun, Hex'.
  unfold mbind, CLIInterface.M_bind, CLIInterface.bind,
    CLIInterface.logging_error, mret, CLIInterface.M_ret, CLIInterface.ret.
  destruct self as [m h]. simpl.
  eexists. split; [reflexivity|]. split; [discriminate|].
  simpl. rewrite last_snoc. eauto.
Qed.

Lemma process_query_degrades_witness :
  exists e',
    CLIInterface._process_query "What are visitor parking hours?"
      (CLIInterface.mk Samples.server None) Samples.process
    = (Ok (VStr CLIInterface.apology, VList [], false),
       CLIInterface.mk Samples.server None, e')
    /\ CLIInterface.apology <> EmptyString
    /\ exists msg, last (MCPServer.log e') = Some (mk_log ERROR msg).
Proof.
  apply (process_query_degrades (CLIInterface.mk Samples.server None)
           "What are visitor parking hours?" Samples.process
           Samples.failing_query
           (RuntimeError "vector store unavailable") tt).
  - vm_compute. reflexivity.
  - reflexivity.
  - reflexivity.
Defined.

(** ** The rate limiter *)

Module RateLimiterFacts.

Import RateLimiter.

Lemma recent_true self now t0 :
  (now - t0 < window self)%Q -> recent self now t0 = true.
Proof.
  intros H. unfold recent.
  destruct (Qlt_le_dec (now - t0) (window self)) as [_|Hle]; [reflexivity|].
  exfalso. apply (Qlt_not_le _ _ H Hle).
Qed.

Lemma recent_false self now t0 :
  (window self <= now - t0)%Q -> recent self now t0 = false.
Proof.
  intros H. unfold recent.
  destruct (Qlt_le_dec (now - t0) (window self)) as [Hlt|_]; [|reflexivity].
  exfalso. apply (Qlt_not_le _ _ Hlt H).
Qed.

(** A check that finds fewer than [rate_limit] recent instants admits
    and stores them followed by [now]. *)
Lemma check_admits self client now kept :
  List.filter (recent self now) (default [] (requests self !! client)) = kept ->
  len kept < rate_limit self ->
  check self client now
  = (true, mk (<[client := kept ++ [now]]> (requests self))
              (rate_limit self) (window self)).
Proof.
  intros Hkept Hlt. unfold check. rewrite Hkept.
  destruct (len kept >=? rate_limit self) eqn:Hge; [lia | reflexivity].
Qed.

(** A check that finds [rate_limit] recent instants or more denies and
    leaves the limiter as it was. *)
Lemma check_denies self client now :
  rate_limit self
  <= len (List.filter (recent self now) (default [] (requests self !! client))) ->
  check self client now = (false, self).
Proof.
  intros Hle. unfold check.
  destruct (len _ >=? rate_limit self) eqn:Hge; [reflexivity | lia].
Qed.

End RateLimiterFacts.

(** C7. With limit 2 and a window of 60 seconds, for an identity without
    earlier requests: three successive checks at instants [t1 <= t2 <= t3]
    within one second admit the first two and deny the third, and a check
    at an instant [t4] at least 60 seconds after the admitted instants is
    admitted again. *)
Theorem rate_limiter_boundary
    (self : RateLimiter.t) (client : string) (t1 t2 t3 t4 : Q) :
  RateLimiter.rate_limit self = 2 ->
  RateLimiter.window self = 60%Q ->
  RateLimiter.requests self !! client = None ->
  (t1 <= t2)%Q -> (t2 <= t3)%Q -> (t3 - t1 <= 1)%Q -> (60 <= t4 - t2)%Q ->
  let r1 := RateLimiter.check self client t1 in
  let r2 := RateLimiter.check (snd r1) client t2 in
  let r3 := RateLimiter.check (snd r2) client t3 in
  let r4 := RateLimiter.check (snd r3) client t4 in
  fst r1 = true /\ fst r2 = true /\ fst r3 = false /\ fst r4 = true.
Proof.
  intros Hlimit Hwindow Hnew H12 H23 H31 H42 r1 r2 r3 r4.
  assert (E1 : r1 = (true, RateLimiter.mk (<[client := [t1]]> (RateLimiter.requests self)) 2 60%Q)).
  { subst r1. rewrite (RateLimiterFacts.check_admits self client t1 []).
    - rewrite Hlimit, Hwindow. reflexivity.
    - rewrite Hnew. reflexivity.
    - rewrite Hlimit. reflexivity. }
  assert (E2 : r2 = (true, RateLimiter.mk (<[client := [t1; t2]]> (RateLimiter.requests self)) 2 60%Q)).
  { subst r2. rewrite E1. simpl snd.
    rewrite (RateLimiterFacts.check_admits _ client t2 [t1]).
    - simpl. rewrite insert_insert_eq. reflexivity.
    - simpl. rewrite lookup_insert_eq. simpl.
      rewrite RateLimiterFacts.recent_true; [reflexivity | simpl; lra].
    - reflexivity. }
  assert (E3 : r3 = (false, snd r2)).
  { subst r3. rewrite E2. simpl snd.
    apply RateLimiterFacts.check_denies. simpl.
    rewrite lookup_insert_eq. simpl.
    rewrite !RateLimiterFacts.recent_true by (simpl; lra). reflexivity. }
  assert (E4 : fst r4 = true).
  { subst r4. rewrite E3, E2. simpl snd.
    rewrite (RateLimiterFacts.check_admits _ client t4 []); [reflexivity | | reflexivity].
    simpl. rewrite lookup_insert_eq. simpl.
    rewrite !RateLimiterFacts.recent_false by (simpl; lra). reflexivity. }
  rewrite E1, E2, E3. auto.
Qed.

Lemma rate_limiter_boundary_witness :
  let l0 := RateLimiter.__init__ (Some 2) in
  let r1 := RateLimiter.check l0 "client" 0%Q in
  let r2 := RateLimiter.check (snd r1) "client" (1 # 2)%Q in
  let r3 := RateLimiter.check (snd r2) "client" 1%Q in
  let r4 := RateLimiter.check (snd r3) "client" 61%Q in
  fst r1 = true /\ fst r2 = true /\ fst r3 = false /\ fst r4 = true.
Proof.
  apply (rate_limiter_boundary (RateLimiter.__init__ (Some 2)) "client"
           0%Q (1 # 2)%Q 1%Q 61%Q).
  - reflexivity.
  - reflexivity.
  - reflexivity.
  - unfold Qle. simpl. lia.
  - unfold Qle. simpl. lia.
  - unfold Qle. simpl. lia.
  - unfold Qle. simpl. lia.
Defined.

(** ** The window extraction *)

(** The claim of C8 fails: on the parking query and text the result is
    not the first sentence alone. *)
Lemma extract_section_not_first_sentence :
  ResponseFormatterTool._extract_section Samples.parking_text Samples.parking_query
  <> lit "Visitor parking is open from 6am to 10pm daily.".
Proof.
  vm_compute. intros H.
  apply (f_equal (@length ascii)) in H. vm_compute in H. discriminate H.
Qed.

(** C8, amended. On the query "What are visitor parking hours?" and the
    text "Visitor parking is open from 6am to 10pm daily. Overnight
    parking requires a permit." the window extraction returns both
    sentences: the first sentence, which mentions a query word, and the
    sentence that follows it inside the window of five. *)
Theorem extract_section_parking :
  ResponseFormatterTool._extract_section Samples.parking_text Samples.parking_query
  = lit "Visitor parking is open from 6am to 10pm daily. Overnight parking requires a permit.".
Proof. vm_compute. reflexivity. Qed.

(** ** The registry *)

Module PyDictFacts.

Import PyDict.

(** Assigning a key either rewrites its item in place or appends one. *)
Lemma keys_set {V} (k : string) (v : V) (d : dict V) :
  keys (set k v d) = if mem k d then keys d else keys d ++ [k].
Proof.
  unfold mem. induction d as [|[k' v'] d IH]; simpl; [reflexivity|].
  destruct (String.eqb k k') eqn:E.
  - apply String.eqb_eq in E. subst. reflexivity.
  - simpl. rewrite IH. destruct (get k d); reflexivity.
Qed.

Lemma mem_keys {V} (k : string) (d : dict V) :
  mem k d = true <-> In k (keys d).
Proof.
  unfold mem. induction d as [|[k' v'] d IH]; simpl.
  - split; [discriminate | tauto].
  - destruct (String.eqb k k') eqn:E.
    + apply String.eqb_eq in E. subst. tauto.
    + apply String.eqb_neq in E. rewrite IH. split; [tauto|].
      intros [Heq|Hin]; [congruence | exact Hin].
Qed.

Lemma NoDup_keys_set {V} (k : string) (v : V) (d : dict V) :
  List.NoDup (keys d) -> List.NoDup (keys (set k v d)).
Proof.
  intros Hd. rewrite keys_set. destruct (mem k d) eqn:E; [exact Hd|].
  apply NoDup_ListNoDup, NoDup_app. apply NoDup_ListNoDup in Hd.
  split; [exact Hd|]. split.
  - intros x Hx Hk. apply list_elem_of_In in Hx.
    apply list_elem_of_In in Hk. destruct Hk as [Hk|[]]. subst x.
    apply mem_keys in Hx. congruence.
  - apply NoDup_singleton.
Qed.

(** A comprehension never repeats a key. *)
Lemma NoDup_keys_comprehension {V V'} (f : V -> V') (d : dict V) :
  List.NoDup (keys (comprehension f d)).
Proof.
  unfold comprehension.
  assert (G : forall acc : dict V', List.NoDup (keys acc) ->
            List.NoDup (keys (fold_left
              (fun acc kv => set (fst kv) (f (snd kv)) acc) d acc))).
  { induction d as [|kv d IH]; intros acc Hacc; simpl; [exact Hacc|].
    apply IH, NoDup_keys_set, Hacc. }
  apply G. constructor.
Qed.

End PyDictFacts.

(** Every single listing, of all tools or of one category, names each
    capability at most once, whatever calls the registry has seen. *)
Lemma list_tools_keys_unique
    {Callable : Type} (iscoroutinefunction : Callable -> bool)
    (ops : list (ToolRegistry.op Callable))
    (category : option ToolRegistry.ToolCategory) :
  List.NoDup (PyDict.keys
    (ToolRegistry.list_tools (ToolRegistry.run_ops Callable iscoroutinefunction ops)
                             category)).
Proof.
  unfold ToolRegistry.list_tools.
  destruct category; apply PyDictFacts.NoDup_keys_comprehension.
Qed.

(** C9, at the calls that break it.  Registering the name [x] under
    [DOCUMENT] and registering it again under [SEARCH] leaves one entry
    in the listing of all tools, and an entry in the listing of each of
    the two categories: two entries across the per-category listings. *)
Theorem reregistration_duplicates_across_categories :
  let registry :=
    ToolRegistry.run_ops bool (fun coroutine => coroutine)
      [ToolRegistry.Register "x" "first" (Some ToolRegistry.DOCUMENT) None false;
       ToolRegistry.Register "x" "second" (Some ToolRegistry.SEARCH) None false] in
  PyDict.occurrences "x" (ToolRegistry.list_tools registry None) = 1%nat
  /\ PyDict.occurrences "x"
       (ToolRegistry.list_tools registry (Some ToolRegistry.DOCUMENT)) = 1%nat
  /\ PyDict.occurrences "x"
       (ToolRegistry.list_tools registry (Some ToolRegistry.SEARCH)) = 1%nat
  /\ ToolRegistry.category_occurrences registry "x" = 2%nat.
Proof. vm_compute. auto. Qed.

(** ** The chunking loop *)

Module PyStrFacts.

Lemma len_nonneg {A} (s : list A) : 0 <= len s.
Proof. unfold len. lia. Qed.

(** A slice between non-negative indices. *)
Lemma slice_nonneg {A} (s : list A) (a b : Z) :
  0 <= a -> 0 <= b ->
  slice s a b = drop (Z.to_nat a) (take (Z.to_nat b) s).
Proof.
  intros Ha Hb. unfold slice, slice_index, len.
  destruct (a <? 0) eqn:Ea; [lia|]. destruct (b <? 0) eqn:Eb; [lia|].
  destruct (Z.le_gt_cases b (Z.of_nat (length s))) as [Hbs|Hbs].
  - replace (Z.min b (Z.of_nat (length s))) with b by lia.
    destruct (Z.le_gt_cases a (Z.of_nat (length s))) as [Has|Has].
    + replace (Z.min a (Z.of_nat (length s))) with a by lia. reflexivity.
    + rewrite !drop_ge; [reflexivity | |]; rewrite length_take; lia.
  - replace (Z.to_nat (Z.min b (Z.of_nat (length s)))) with (length s) by lia.
    rewrite firstn_all, take_ge by lia.
    destruct (Z.le_gt_cases a (Z.of_nat (length s))) as [Has|Has].
    + replace (Z.min a (Z.of_nat (length s))) with a by lia. reflexivity.
    + rewrite !drop_ge; [reflexivity | |]; lia.
Qed.

(** A slice between ordered indices is never longer than their
    distance. *)
Lemma len_slice_le {A} (s : list A) (a b : Z) :
  a <= b -> len (slice s a b) <= b - a.
Proof.
  intros Hab. unfold slice, slice_index, len.
  rewrite length_drop, length_take.
  destruct (a <? 0) eqn:Ea; destruct (b <? 0) eqn:Eb; lia.
Qed.

(** The whole of [s] from index [k] on. *)
Lemma slice_from {A} (s : list A) (k : Z) :
  0 <= k -> slice s k (len s) = drop (Z.to_nat k) s.
Proof.
  intros Hk. rewrite slice_nonneg by (auto using len_nonneg).
  unfold len. rewrite Nat2Z.id, firstn_all. reflexivity.
Qed.

Lemma rfind_from_range (c : ascii) (s : str) (i : Z) :
  0 <= i ->
  rfind_from c i s = -1 \/ i <= rfind_from c i s < i + len s.
Proof.
  revert i. induction s as [|x s IH]; intros i Hi; simpl; [auto|].
  unfold len in *. simpl length.
  destruct (IH (i + 1)) as [E|E]; [lia | |].
  - rewrite E. simpl. destruct (Ascii.eqb x c); [right; lia | auto].
  - destruct (rfind_from c (i + 1) s =? -1) eqn:Eq; [lia | right; lia].
Qed.

(** [rfind] answers [-1] or an index of the string. *)
Lemma rfind_range (c : ascii) (s : str) :
  rfind c s = -1 \/ 0 <= rfind c s < len s.
Proof. apply (rfind_from_range c s 0). lia. Qed.

End PyStrFacts.

Module ChunkingFacts.

Import PDFProcessor Chunking PyStrFacts.

Lemma ceil_div_nonpos (x d : Z) :
  0 < d -> x <= 0 -> Z.to_nat (ceil_div x d) = 0%nat.
Proof.
  intros Hd Hx. unfold ceil_div.
  assert ((x + d - 1) / d < 1) by (apply Z.div_lt_upper_bound; lia). lia.
Qed.

Lemma ceil_div_step (x d : Z) :
  0 < d -> 0 < x ->
  Z.to_nat (ceil_div x d) = S (Z.to_nat (ceil_div (x - d) d)).
Proof.
  intros Hd Hx. unfold ceil_div.
  replace (x + d - 1) with (x - d + d - 1 + 1 * d) by lia.
  rewrite Z.div_add by lia.
  assert (0 <= (x - d + d - 1) / d) by (apply Z.div_pos; lia). lia.
Qed.

Section WithProcessor.

Variable self : t.
Variable text : str.

Local Abbreviation size := (chunk_size self).
Local Abbreviation overlap := (chunk_overlap self).

(** The loop body in terms of the back-off it performs. *)
Lemma cut_backoff (start : Z) :
  cut self text start
  = match backoff_at self text start with
    | Some kept =>
        (slice_to (slice text start (start + size)) kept, start + kept)
    | None => (slice text start (start + size), start + size)
    end.
Proof.
  unfold cut, backoff_at.
  destruct (start + size <? len text); [|reflexivity].
  destruct (negb (rfind period (slice text start (start + size)) =? -1));
    [|reflexivity].
  f_equal. lia.
Qed.

(** A back-off keeps at least one character and no more than the
    window holds. *)
Lemma backoff_at_range (start kept : Z) :
  backoff_at self text start = Some kept ->
  0 < kept <= len (slice text start (start + size))
  /\ start + size < len text.
Proof.
  unfold backoff_at.
  destruct (start + size <? len text) eqn:E; [|discriminate].
  destruct (rfind period (slice text start (start + size)) =? -1) eqn:Ep;
    simpl; [discriminate|].
  intros [= <-].
  destruct (rfind_range period (slice text start (start + size))); lia.
Qed.

Lemma In_starts (start : Z) :
  0 <= start < len text -> In start (starts text).
Proof.
  intros H. unfold starts. apply in_map_iff.
  exists (Z.to_nat start). split; [lia|].
  apply in_seq. unfold len in H. lia.
Qed.

Lemma progress_ok_spec :
  progress_ok self text = true ->
  forall start kept, 0 <= start < len text ->
    backoff_at self text start = Some kept -> overlap < kept.
Proof.
  intros H start kept Hs Hb. unfold progress_ok in H.
  rewrite forallb_forall in H. specialize (H start (In_starts start Hs)).
  rewrite Hb in H. lia.
Qed.

(** A window that does not back off is full. *)
Lemma full_window_no_backoff (start : Z) :
  backoff_at self text start = None -> full_window self text start = true.
Proof.
  intros H. unfold full_window. rewrite cut_backoff, H. simpl. lia.
Qed.

(** The two loops agree: the chunks are the stripped cuts of the
    recorded iterations, after those already collected. *)
Lemma chunk_loop_steps (fuel : nat) (start : Z) (acc : list str) :
  chunk_loop fuel self text start acc
  = (fun tr => acc ++ stripped tr) <$> chunk_steps fuel self text start.
Proof.
  revert start acc. induction fuel as [|fuel IH]; intros start acc; simpl.
  - destruct (start <? len text); simpl; [reflexivity|].
    rewrite app_nil_r. reflexivity.
  - destruct (start <? len text); simpl; [|rewrite app_nil_r; reflexivity].
    destruct (cut self text start) as [chunk end_]. rewrite IH.
    destruct (chunk_steps fuel self text (end_ - chunk_overlap self));
      simpl; [|reflexivity].
    rewrite <- app_assoc. reflexivity.
Qed.

(** Every iteration uses one unit of the bound. *)
Lemma chunk_steps_length (fuel : nat) (start : Z) (tr : list step) :
  chunk_steps fuel self text start = Some tr -> (length tr <= fuel)%nat.
Proof.
  revert start tr. induction fuel as [|fuel IH]; intros start tr; simpl.
  - destruct (start <? len text); [discriminate|]. intros [= <-]. simpl. lia.
  - destruct (start <? len text); [|intros [= <-]; simpl; lia].
    destruct (cut self text start) as [chunk end_].
    destruct (chunk_steps fuel self text (end_ - chunk_overlap self)) as [tr'|] eqn:E;
      simpl; [|discriminate].
    intros [= <-]. simpl. apply IH in E. lia.
Qed.

(** One iteration, unfolded. *)
Lemma chunk_steps_unfold (fuel : nat) (start : Z) :
  start < len text ->
  chunk_steps (S fuel) self text start
  = cons (mk_step start (snd (cut self text start))
                  (fst (cut self text start)))
      <$> chunk_steps fuel self text (snd (cut self text start) - overlap).
Proof.
  intros H. simpl. destruct (start <? len text) eqn:E; [|lia].
  destruct (cut self text start); reflexivity.
Qed.

Lemma chunk_steps_done (fuel : nat) (start : Z) :
  len text <= start -> chunk_steps fuel self text start = Some [].
Proof.
  intros H. destruct fuel; simpl;
    destruct (start <? len text) eqn:E; try lia; reflexivity.
Qed.

Lemma chunk_steps_out_of_fuel (start : Z) :
  start < len text -> chunk_steps 0 self text start = None.
Proof.
  intros H. simpl. destruct (start <? len text) eqn:E; [reflexivity | lia].
Qed.

(** A larger bound does not change the outcome of a run that ended. *)
Lemma chunk_steps_mono (fuel fuel' : nat) (start : Z) (tr : list step) :
  chunk_steps fuel self text start = Some tr -> (fuel <= fuel')%nat ->
  chunk_steps fuel' self text start = Some tr.
Proof.
  revert fuel' start tr.
  induction fuel as [|fuel IH]; intros fuel' start tr Hrun Hle.
  - destruct (Z.lt_ge_cases start (len text)) as [Hlt|Hge].
    + rewrite chunk_steps_out_of_fuel in Hrun by exact Hlt. discriminate.
    + rewrite chunk_steps_done in Hrun |- * by exact Hge. exact Hrun.
  - destruct (Z.lt_ge_cases start (len text)) as [Hlt|Hge].
    + destruct fuel' as [|fuel']; [lia|].
      rewrite chunk_steps_unfold in Hrun |- * by exact Hlt.
      destruct (chunk_steps fuel self text
                  (snd (cut self text start) - overlap)) as [tr'|] eqn:E;
        [|discriminate].
      rewrite (IH fuel' _ tr' E) by lia. exact Hrun.
    + rewrite chunk_steps_done in Hrun |- * by exact Hge. exact Hrun.
Qed.

(** *** Runs without back-off *)

Section NoBackoff.

Hypothesis Hsizes : overlap < size.
Hypothesis Hfree :
  forall start, 0 <= start < len text -> backoff_at self text start = None.

(** From pointer [start] the body runs exactly
    [⌈(len text - start) / (size - overlap)⌉] times. *)
Lemma steps_no_backoff (fuel : nat) (start : Z) :
  0 <= start ->
  let n := Z.to_nat (ceil_div (len text - start) (size - overlap)) in
  ((n <= fuel)%nat ->
     exists tr, chunk_steps fuel self text start = Some tr /\ length tr = n)
  /\ ((fuel < n)%nat -> chunk_steps fuel self text start = None).
Proof.
  revert start. induction fuel as [|fuel IH]; intros start Hs n.
  - destruct (Z.lt_ge_cases start (len text)) as [Hlt|Hge].
    + pose proof (ceil_div_step (len text - start) (size - overlap)).
      split; [lia|]. intros _. apply chunk_steps_out_of_fuel, Hlt.
    + pose proof (ceil_div_nonpos (len text - start) (size - overlap)).
      split; [|lia]. intros _. exists []. split; [|simpl; lia].
      apply chunk_steps_done. lia.
  - destruct (Z.lt_ge_cases start (len text)) as [Hlt|Hge].
    + pose proof (ceil_div_step (len text - start) (size - overlap)) as Hc.
      rewrite chunk_steps_unfold by exact Hlt.
      rewrite cut_backoff, Hfree by lia. simpl fst. simpl snd.
      destruct (IH (start + size - overlap)) as [IHa IHb]; [lia|].
      replace (len text - (start + size - overlap))
        with (len text - start - (size - overlap)) in IHa, IHb by lia.
      split; intros Hn.
      * destruct IHa as (tr & Htr & Hlen); [lia|].
        rewrite Htr. simpl. eexists. split; [reflexivity|]. simpl. lia.
      * rewrite IHb by lia. reflexivity.
    + pose proof (ceil_div_nonpos (len text - start) (size - overlap)).
      split; [|lia]. intros _. exists []. split; [|simpl; lia].
      apply chunk_steps_done. lia.
Qed.

End NoBackoff.

(** *** Runs whose windows are full *)

(** When the windows the loop visits from pointer [start] on are full,
    the body runs exactly [⌈(len text - start) / (size - overlap)⌉]
    times. *)
Lemma steps_full_windows (fuel visited : nat) (start : Z) :
  overlap < size ->
  len text - start <= Z.of_nat visited ->
  full_windows visited self text start = true ->
  let n := Z.to_nat (ceil_div (len text - start) (size - overlap)) in
  ((n <= fuel)%nat ->
     exists tr, chunk_steps fuel self text start = Some tr /\ length tr = n)
  /\ ((fuel < n)%nat -> chunk_steps fuel self text start = None).
Proof.
  intros Hsizes. revert visited start.
  induction fuel as [|fuel IH]; intros visited start Hv Hfull n.
  - destruct (Z.lt_ge_cases start (len text)) as [Hlt|Hge].
    + pose proof (ceil_div_step (len text - start) (size - overlap)).
      split; [lia|]. intros _. apply chunk_steps_out_of_fuel, Hlt.
    + pose proof (ceil_div_nonpos (len text - start) (size - overlap)).
      split; [|lia]. intros _. exists []. split; [|simpl; lia].
      apply chunk_steps_done. lia.
  - destruct (Z.lt_ge_cases start (len text)) as [Hlt|Hge].
    + pose proof (ceil_div_step (len text - start) (size - overlap)) as Hc.
      destruct visited as [|visited]; [lia|].
      simpl in Hfull. destruct (start <? len text) eqn:E; [|lia].
      apply andb_true_iff in Hfull. destruct Hfull as [Hfw Hrest].
      unfold full_window in Hfw. apply Z.eqb_eq in Hfw.
      rewrite chunk_steps_unfold by exact Hlt.
      rewrite Hfw in Hrest |- *.
      destruct (IH visited (start + size - overlap)) as [IHa IHb];
        [lia | exact Hrest |].
      replace (len text - (start + size - overlap))
        with (len text - start - (size - overlap)) in IHa, IHb by lia.
      split; intros Hn.
      * destruct IHa as (tr & Htr & Hlen); [lia|].
        rewrite Htr. simpl. eexists. split; [reflexivity|]. simpl. lia.
      * rewrite IHb by lia. reflexivity.
    + pose proof (ceil_div_nonpos (len text - start) (size - overlap)).
      split; [|lia]. intros _. exists []. split; [|simpl; lia].
      apply chunk_steps_done. lia.
Qed.

(** *** Runs whose back-offs keep more than the overlap *)

Section Progress.

Hypothesis Hsizes : overlap < size.
Hypothesis Hprogress :
  forall start kept, 0 <= start < len text ->
    backoff_at self text start = Some kept -> overlap < kept.

(** The pointer moves forward in every iteration. *)
Lemma cut_advances (start : Z) :
  0 <= start < len text ->
  start + overlap < snd (cut self text start).
Proof.
  intros Hs. rewrite cut_backoff.
  destruct (backoff_at self text start) as [kept|] eqn:E; simpl; [|lia].
  pose proof (Hprogress start kept Hs E). lia.
Qed.

(** The loop ends within [len text - start] iterations. *)
Lemma steps_terminate (fuel : nat) (start : Z) :
  0 <= start -> len text - start <= Z.of_nat fuel ->
  exists tr, chunk_steps fuel self text start = Some tr.
Proof.
  revert start. induction fuel as [|fuel IH]; intros start Hs Hfuel.
  - exists []. apply chunk_steps_done. lia.
  - destruct (Z.lt_ge_cases start (len text)) as [Hlt|Hge].
    + pose proof (cut_advances start (conj Hs Hlt)) as Hadv.
      rewrite chunk_steps_unfold by exact Hlt.
      destruct (IH (snd (cut self text start) - overlap)) as (tr & Htr);
        [lia | lia |].
      rewrite Htr. simpl. eauto.
    + exists []. apply chunk_steps_done. lia.
Qed.

(** The chunk cut at [start] is the text between [start] and the
    adjusted [end]. *)
Lemma cut_window (start : Z) :
  0 <= overlap -> 0 <= start < len text ->
  fst (cut self text start)
  = drop (Z.to_nat start) (take (Z.to_nat (snd (cut self text start))) text).
Proof.
  intros Hov Hs. rewrite cut_backoff.
  destruct (backoff_at self text start) as [kept|] eqn:E; simpl.
  - destruct (backoff_at_range start kept E) as [Hk _].
    pose proof (Hprogress start kept Hs E).
    pose proof (len_slice_le text start (start + size)).
    unfold slice_to.
    rewrite (slice_nonneg (slice text start (start + size))) by lia.
    rewrite (slice_nonneg text) by lia.
    change (Z.to_nat 0) with 0%nat. rewrite drop_0.
    rewrite take_drop_commute, take_take. do 2 f_equal. lia.
  - apply slice_nonneg; lia.
Qed.

(** The loop ends within [len text - start] iterations, and its
    windows are chained and leave no gap. *)
Lemma steps_cover (fuel : nat) (start : Z) :
  0 <= overlap -> 0 <= start -> len text - start <= Z.of_nat fuel ->
  exists tr,
    chunk_steps fuel self text start = Some tr
    /\ (forall s, head tr = Some s -> st_start s = start)
    /\ chained overlap tr
    /\ Forall (fun s => st_raw s = slice text (st_start s) (st_end s)
                       /\ st_start s + overlap < st_end s) tr
    /\ concat (map (fun s => slice (st_raw s) overlap (len (st_raw s))) tr)
       = drop (Z.to_nat (start + overlap)) text.
Proof.
  intros Hov. revert start.
  induction fuel as [|fuel IH]; intros start Hs Hfuel.
  - exists []. rewrite chunk_steps_done by lia.
    repeat split; try constructor; try discriminate.
    simpl. rewrite drop_ge; [reflexivity|]. unfold len in Hfuel. lia.
  - destruct (Z.lt_ge_cases start (len text)) as [Hlt|Hge].
    + pose proof (cut_advances start (conj Hs Hlt)) as Hadv.
      pose proof (cut_window start Hov (conj Hs Hlt)) as Hwin.
      rewrite chunk_steps_unfold by exact Hlt.
      destruct (cut self text start) as [chunk end_]. simpl in *.
      destruct (IH (end_ - overlap)) as (tr & Htr & Hhd & Hch & Hraw & Hcat);
        [lia | lia |].
      rewrite Htr. simpl. eexists. split; [reflexivity|].
      split; [intros s [= <-]; reflexivity|].
      split.
      { destruct tr as [|s2 tr]; [exact I|].
        split; [apply Hhd; reflexivity | exact Hch]. }
      split.
      { constructor; [|exact Hraw]. simpl.
        rewrite slice_nonneg by lia. split; [exact Hwin | exact Hadv]. }
      cbn [map concat st_raw].
      rewrite Hcat, slice_from by exact Hov. rewrite Hwin, drop_drop.
      replace (Z.to_nat (end_ - overlap + overlap)) with (Z.to_nat end_) by lia.
      replace (Z.to_nat start + Z.to_nat overlap)%nat
        with (Z.to_nat (start + overlap)) by lia.
      apply drop_take_drop. lia.
    + exists []. rewrite chunk_steps_done by lia.
      repeat split; try constructor; try discriminate.
      simpl. rewrite drop_ge; [reflexivity|]. unfold len in Hge. lia.
Qed.

End Progress.

(** *** Runs with an overlap that is not below the size *)

(** The pointer never passes the end of a non-empty text. *)
Lemma steps_stuck (fuel : nat) (start : Z) :
  0 <= size <= overlap -> start < len text ->
  chunk_steps fuel self text start = None.
Proof.
  intros Hsz. revert start. induction fuel as [|fuel IH]; intros start Hlt.
  - apply chunk_steps_out_of_fuel, Hlt.
  - rewrite chunk_steps_unfold by exact Hlt. rewrite cut_backoff.
    pose proof (len_slice_le text start (start + size)).
    destruct (backoff_at self text start) as [kept|] eqn:E; simpl.
    + destruct (backoff_at_range start kept E) as [Hk _].
      rewrite IH by lia. reflexivity.
    + rewrite IH by lia. reflexivity.
Qed.

End WithProcessor.

(** [_chunk_text] in terms of the recorded iterations. *)
Lemma chunk_text_steps (fuel : nat) (self : t) (T : str) :
  _chunk_text fuel self T
  = stripped <$> chunk_steps fuel self (normalize T) 0.
Proof. unfold _chunk_text. rewrite chunk_loop_steps. reflexivity. Qed.

(** The chunks returned do not depend on the bound, once it suffices. *)
Lemma chunk_text_mono (fuel fuel' : nat) (self : t) (T : str)
    (chunks : list str) :
  _chunk_text fuel self T = Some chunks -> (fuel <= fuel')%nat ->
  _chunk_text fuel' self T = Some chunks.
Proof.
  rewrite !chunk_text_steps. intros Hrun Hle.
  destruct (chunk_steps fuel self (normalize T) 0) as [tr|] eqn:E;
    [|discriminate].
  rewrite (chunk_steps_mono self (normalize T) fuel fuel' 0 tr E Hle).
  exact Hrun.
Qed.

Lemma length_stripped (tr : list step) : length (stripped tr) = length tr.
Proof. unfold stripped. apply length_map. Qed.

End ChunkingFacts.

(** The claim of C3 fails: with size 3 and overlap 1 the text "ab cd" is
    cut into the chunks "ab", "cd", "d"; consecutive chunks do not
    overlap by one character, and the chunks put together with the
    overlaps removed give "abd". *)
Lemma chunks_do_not_reassemble :
  let self := PDFProcessor.mk 3 1 in
  let T := lit "ab cd" in
  Chunking.progress_ok self (PDFProcessor.normalize T) = true
  /\ PDFProcessor._chunk_text 3 self T = Some [lit "ab"; lit "cd"; lit "d"]
  /\ Chunking.exact_overlap 1 [lit "ab"; lit "cd"; lit "d"] = false
  /\ Chunking.reassemble 1 [lit "ab"; lit "cd"; lit "d"] = lit "abd"
  /\ Chunking.reassemble 1 [lit "ab"; lit "cd"; lit "d"]
     <> PDFProcessor.normalize T.
Proof. vm_compute. repeat split; discriminate. Qed.

(** C3, amended. For [0 <= overlap < size] and a text all of whose
    sentence back-offs keep more than [overlap] characters, chunking
    returns, within [len] iterations, the stripped windows of the
    normalised text: the first window starts at 0, every later window
    starts exactly [overlap] characters before the end of the one before
    it, every window is the text between its start and its end and spans
    more than [overlap] characters, and the windows (the chunks before
    [strip]) concatenated with the overlaps removed are the normalised
    text. *)
Theorem chunk_windows_cover (self : PDFProcessor.t) (T : str) :
  0 <= PDFProcessor.chunk_overlap self < PDFProcessor.chunk_size self ->
  Chunking.progress_ok self (PDFProcessor.normalize T) = true ->
  exists tr,
    PDFProcessor.chunk_steps (length (PDFProcessor.normalize T)) self
                             (PDFProcessor.normalize T) 0 = Some tr
    /\ PDFProcessor._chunk_text (length (PDFProcessor.normalize T)) self T
       = Some (Chunking.stripped tr)
    /\ (forall s, head tr = Some s -> PDFProcessor.st_start s = 0)
    /\ Chunking.chained (PDFProcessor.chunk_overlap self) tr
    /\ Forall (fun s =>
                 PDFProcessor.st_raw s
                 = slice (PDFProcessor.normalize T)
                         (PDFProcessor.st_start s) (PDFProcessor.st_end s)
                 /\ PDFProcessor.st_start s + PDFProcessor.chunk_overlap self
                    < PDFProcessor.st_end s) tr
    /\ Chunking.reassemble (PDFProcessor.chunk_overlap self)
                           (map PDFProcessor.st_raw tr)
       = PDFProcessor.normalize T.
Proof.
  intros [Hov Hsz] Hok.
  set (text := PDFProcessor.normalize T).
  destruct (ChunkingFacts.steps_cover self text Hsz
              (ChunkingFacts.progress_ok_spec self text Hok)
              (length text) 0 Hov (Z.le_refl 0))
    as (tr & Htr & Hhd & Hch & Hraw & Hcat); [unfold len; lia|].
  exists tr. rewrite ChunkingFacts.chunk_text_steps. fold text. rewrite Htr.
  repeat (split; [first [reflexivity | assumption]|]).
  destruct tr as [|s0 tr]; simpl.
  - simpl in Hcat. symmetry in Hcat. apply (f_equal (@length ascii)) in Hcat.
    rewrite length_drop in Hcat. simpl in Hcat.
    destruct text as [|c text']; [reflexivity|].
    exfalso.
    pose proof (ChunkingFacts.chunk_steps_unfold self (c :: text') 0 0) as Hun.
    destruct (length (c :: text')) eqn:El; [discriminate El|].
    rewrite ChunkingFacts.chunk_steps_unfold in Htr by (unfold len; simpl; lia).
    destruct (PDFProcessor.chunk_steps n self (c :: text') _);
      discriminate Htr.
  - inversion Hraw as [|? ? [Hr0 Hlen0] _]; subst.
    rewrite (Hhd s0 eq_refl) in Hr0, Hlen0.
    cbn [map concat] in Hcat.
    rewrite PyStrFacts.slice_from in Hcat by exact Hov.
    rewrite PyStrFacts.slice_nonneg in Hr0 by lia.
    change (Z.to_nat 0) with 0%nat in Hr0. rewrite drop_0 in Hr0.
    rewrite <- (take_drop (Z.to_nat (PDFProcessor.chunk_overlap self))
                  (PDFProcessor.st_raw s0)).
    rewrite map_map, <- app_assoc, Hcat. rewrite Hr0, take_take.
    replace (Z.to_nat (PDFProcessor.chunk_overlap self)
             `min` Z.to_nat (PDFProcessor.st_end s0))%nat
      with (Z.to_nat (PDFProcessor.chunk_overlap self)) by lia.
    change (Z.to_nat (0 + PDFProcessor.chunk_overlap self))
      with (Z.to_nat (PDFProcessor.chunk_overlap self)).
    apply take_drop.
Qed.

Lemma chunk_windows_cover_witness :
  exists tr,
    PDFProcessor.chunk_steps (length (PDFProcessor.normalize Samples.sentences))
      (PDFProcessor.mk 16 2) (PDFProcessor.normalize Samples.sentences) 0
    = Some tr
    /\ PDFProcessor._chunk_text (length (PDFProcessor.normalize Samples.sentences))
         (PDFProcessor.mk 16 2) Samples.sentences
       = Some (Chunking.stripped tr)
    /\ (forall s, head tr = Some s -> PDFProcessor.st_start s = 0)
    /\ Chunking.chained 2 tr
    /\ Forall (fun s =>
                 PDFProcessor.st_raw s
                 = slice (PDFProcessor.normalize Samples.sentences)
                         (PDFProcessor.st_start s) (PDFProcessor.st_end s)
                 /\ PDFProcessor.st_start s + 2 < PDFProcessor.st_end s) tr
    /\ Chunking.reassemble 2 (map PDFProcessor.st_raw tr)
       = PDFProcessor.normalize Samples.sentences.
Proof.
  apply (chunk_windows_cover (PDFProcessor.mk 16 2) Samples.sentences).
  - simpl. lia.
  - vm_compute. reflexivity.
Defined.

(** A back-off that keeps fewer characters than the overlap moves the
    pointer back past text no chunk has covered: with size 10 and
    overlap 3 the characters "bcde" of "a.bcdefghijklmn" are in no
    chunk. *)
Lemma backoff_can_leave_gap :
  PDFProcessor._chunk_text 4 (PDFProcessor.mk 10 3) (lit "a.bcdefghijklmn")
  = Some [lit "a."; []; lit "fghijklmn"; lit "mn"].
Proof. vm_compute. reflexivity. Qed.

(** A back-off that keeps exactly as many characters as the overlap
    leaves the pointer where it was: with size 5 and overlap 3 the loop
    never leaves the start of "ab.cdefghij". *)
Lemma backoff_can_stall (fuel : nat) :
  PDFProcessor._chunk_text fuel (PDFProcessor.mk 5 3) (lit "ab.cdefghij") = None.
Proof.
  rewrite ChunkingFacts.chunk_text_steps.
  change (PDFProcessor.normalize (lit "ab.cdefghij")) with (lit "ab.cdefghij").
  assert (Hstuck : PDFProcessor.chunk_steps fuel (PDFProcessor.mk 5 3)
                     (lit "ab.cdefghij") 0 = None).
  { induction fuel as [|fuel IH].
    - apply ChunkingFacts.chunk_steps_out_of_fuel. vm_compute. reflexivity.
    - rewrite ChunkingFacts.chunk_steps_unfold by (vm_compute; reflexivity).
      change (snd (PDFProcessor.cut (PDFProcessor.mk 5 3) (lit "ab.cdefghij") 0)
              - PDFProcessor.chunk_overlap (PDFProcessor.mk 5 3)) with 0.
      rewrite IH. reflexivity. }
  rewrite Hstuck. reflexivity.
Qed.

(** The claim of C4 fails: with size 3 and overlap 0 the text
    "a.b.c.d.e" has 9 characters, so the bound is 3 iterations; after 3
    iterations the loop has not ended, and it ends after 4. *)
Lemma backoff_exceeds_iteration_bound :
  let self := PDFProcessor.mk 3 0 in
  let T := lit "a.b.c.d.e" in
  Chunking.ceil_div (len (PDFProcessor.normalize T))
    (PDFProcessor.chunk_size self - PDFProcessor.chunk_overlap self) = 3
  /\ PDFProcessor._chunk_text 3 self T = None
  /\ PDFProcessor._chunk_text 4 self T
     = Some [lit "a."; lit "b."; lit "c."; lit "d.e"].
Proof. vm_compute. auto. Qed.

(** C4, amended. For [overlap < size]: when every sentence back-off
    keeps more than [overlap] characters, chunking ends within [len]
    iterations of its loop body, [len] being the length of the
    normalised text; when the windows the loop visits are full, that
    is, the sentence back-off shortens none of them, it ends after
    exactly [⌈len / (size - overlap)⌉] iterations (that many suffice,
    fewer do not), one chunk per iteration. *)
Theorem chunk_termination (self : PDFProcessor.t) (T : str) :
  PDFProcessor.chunk_overlap self < PDFProcessor.chunk_size self ->
  (Chunking.progress_ok self (PDFProcessor.normalize T) = true ->
   exists chunks,
     PDFProcessor._chunk_text (length (PDFProcessor.normalize T)) self T
     = Some chunks
     /\ (length chunks <= length (PDFProcessor.normalize T))%nat)
  /\ (Chunking.full_windows (length (PDFProcessor.normalize T)) self
        (PDFProcessor.normalize T) 0 = true ->
      let n := Z.to_nat (Chunking.ceil_div (len (PDFProcessor.normalize T))
                 (PDFProcessor.chunk_size self - PDFProcessor.chunk_overlap self)) in
      (exists chunks,
         PDFProcessor._chunk_text n self T = Some chunks /\ length chunks = n)
      /\ forall m, (m < n)%nat -> PDFProcessor._chunk_text m self T = None).
Proof.
  intros Hsz. set (text := PDFProcessor.normalize T). split.
  - intros Hok.
    destruct (ChunkingFacts.steps_terminate self text Hsz
                (ChunkingFacts.progress_ok_spec self text Hok)
                (length text) 0 (Z.le_refl 0)) as (tr & Htr);
      [unfold len; lia|].
    exists (Chunking.stripped tr).
    rewrite ChunkingFacts.chunk_text_steps. fold text. rewrite Htr.
    split; [reflexivity|]. rewrite ChunkingFacts.length_stripped.
    apply (ChunkingFacts.chunk_steps_length self text _ 0 tr Htr).
  - intros Hfull n.
    assert (Hrun : forall fuel,
               ((n <= fuel)%nat ->
                exists tr, PDFProcessor.chunk_steps fuel self text 0 = Some tr
                           /\ length tr = n)
               /\ ((fuel < n)%nat ->
                   PDFProcessor.chunk_steps fuel self text 0 = None)).
    { intros fuel.
      pose proof (ChunkingFacts.steps_full_windows self text fuel
                    (length text) 0 Hsz) as H.
      replace (len text - 0) with (len text) in H by lia.
      apply H; [unfold len; lia | exact Hfull]. }
    split.
    + destruct (Hrun n) as [Hsome _].
      destruct Hsome as (tr & Htr & Hlen); [lia|].
      exists (Chunking.stripped tr).
      rewrite ChunkingFacts.chunk_text_steps. fold text. rewrite Htr.
      split; [reflexivity|]. rewrite ChunkingFacts.length_stripped. exact Hlen.
    + intros m Hm. destruct (Hrun m) as [_ Hnone].
      rewrite ChunkingFacts.chunk_text_steps. fold text.
      rewrite Hnone by exact Hm. reflexivity.
Qed.

Lemma chunk_termination_witness :
  (exists chunks,
     PDFProcessor._chunk_text (length (PDFProcessor.normalize Samples.sentences))
       (PDFProcessor.mk 16 2) Samples.sentences = Some chunks
     /\ (length chunks <= length (PDFProcessor.normalize Samples.sentences))%nat)
  /\ ((exists chunks,
         PDFProcessor._chunk_text 2 (PDFProcessor.mk 2 0) (lit "aa.a")
         = Some chunks /\ length chunks = 2%nat)
      /\ forall m, (m < 2)%nat ->
           PDFProcessor._chunk_text m (PDFProcessor.mk 2 0) (lit "aa.a") = None)
  /\ ((exists chunks,
         PDFProcessor._chunk_text 2 (PDFProcessor.mk 5 0) (lit "aaaa.aaaaa")
         = Some chunks /\ length chunks = 2%nat)
      /\ forall m, (m < 2)%nat ->
           PDFProcessor._chunk_text m (PDFProcessor.mk 5 0) (lit "aaaa.aaaaa")
           = None).
Proof.
  split; [|split].
  - apply (chunk_termination (PDFProcessor.mk 16 2) Samples.sentences).
    + simpl. lia.
    + vm_compute. reflexivity.
  - apply (chunk_termination (PDFProcessor.mk 2 0) (lit "aa.a")).
    + simpl. lia.
    + vm_compute. reflexivity.
  - apply (chunk_termination (PDFProcessor.mk 5 0) (lit "aaaa.aaaaa")).
    + simpl. lia.
    + vm_compute. reflexivity.
Defined.

(** The claim of C5 fails: a processor is built with size 3 and overlap
    3; on the empty text its chunking returns the empty list, and on
    "abcdef" it returns nothing, whatever the number of iterations. *)
Lemma overlap_at_size_is_accepted :
  PDFProcessor.__init__ (Some 3) (Some 3) = PDFProcessor.mk 3 3
  /\ PDFProcessor.chunk_size (PDFProcessor.mk 3 3)
     <= PDFProcessor.chunk_overlap (PDFProcessor.mk 3 3)
  /\ PDFProcessor._chunk_text 0 (PDFProcessor.__init__ (Some 3) (Some 3)) []
     = Some []
  /\ forall fuel,
       PDFProcessor._chunk_text fuel (PDFProcessor.__init__ (Some 3) (Some 3))
                                (lit "abcdef") = None.
Proof.
  split; [reflexivity|]. split; [vm_compute; discriminate|].
  split; [reflexivity|]. intros fuel.
  rewrite ChunkingFacts.chunk_text_steps, ChunkingFacts.steps_stuck;
    [reflexivity | simpl; lia | vm_compute; reflexivity].
Qed.

(** C5, amended. A configuration with [0 <= size <= overlap] is not
    rejected: chunking checks neither number.  On a text whose
    normalised form is empty it returns the empty list of chunks; on any
    other text the start pointer never passes the end of the text, and
    the loop returns nothing however many iterations it is given. *)
Theorem chunking_without_validation (self : PDFProcessor.t) (T : str) :
  0 <= PDFProcessor.chunk_size self <= PDFProcessor.chunk_overlap self ->
  (PDFProcessor.normalize T = [] ->
   forall fuel, PDFProcessor._chunk_text fuel self T = Some [])
  /\ (PDFProcessor.normalize T <> [] ->
      forall fuel, PDFProcessor._chunk_text fuel self T = None).
Proof.
  intros Hsz. split; intros Htext fuel; rewrite ChunkingFacts.chunk_text_steps.
  - rewrite Htext, ChunkingFacts.chunk_steps_done; [reflexivity|].
    unfold len. simpl. lia.
  - rewrite ChunkingFacts.steps_stuck; [reflexivity | exact Hsz |].
    destruct (PDFProcessor.normalize T); [congruence|].
    unfold len. simpl. lia.
Qed.

Lemma chunking_without_validation_witness :
  (forall fuel, PDFProcessor._chunk_text fuel (PDFProcessor.mk 3 5) (lit " ")
                = Some [])
  /\ (forall fuel, PDFProcessor._chunk_text fuel (PDFProcessor.mk 3 5)
                     Samples.plain = None).
Proof.
  split.
  - destruct (chunking_without_validation (PDFProcessor.mk 3 5) (lit " "))
      as [Hempty _]; [simpl; lia|].
    apply Hempty. vm_compute. reflexivity.
  - destruct (chunking_without_validation (PDFProcessor.mk 3 5) Samples.plain)
      as [_ Hloop]; [simpl; lia|].
    apply Hloop. vm_compute. discriminate.
Defined.

(** The claim of C6 fails: with size 6 and overlap 4 the five characters
    of "abcde" come back as three chunks, and the empty text, shorter
    than any positive size, comes back as none. *)
Lemma short_text_several_chunks :
  len (PDFProcessor.normalize (lit "abcde")) < 6
  /\ PDFProcessor._chunk_text 3 (PDFProcessor.mk 6 4) (lit "abcde")
     = Some [lit "abcde"; lit "cde"; lit "e"]
  /\ PDFProcessor._chunk_text 0 (PDFProcessor.mk 6 4) ([]) = Some [].
Proof. vm_compute. auto. Qed.

(** C6, amended. For [overlap < size] and a text whose normalised length
    [len] is below [size], chunking returns exactly
    [⌈len / (size - overlap)⌉] chunks: exactly one chunk when and only
    when [0 < len <= size - overlap]. *)
Theorem short_text_chunk_count (self : PDFProcessor.t) (T : str) :
  PDFProcessor.chunk_overlap self < PDFProcessor.chunk_size self ->
  len (PDFProcessor.normalize T) < PDFProcessor.chunk_size self ->
  let n := Z.to_nat (Chunking.ceil_div (len (PDFProcessor.normalize T))
             (PDFProcessor.chunk_size self - PDFProcessor.chunk_overlap self)) in
  (exists chunks,
     PDFProcessor._chunk_text n self T = Some chunks /\ length chunks = n)
  /\ (n = 1%nat <->
      0 < len (PDFProcessor.normalize T)
        <= PDFProcessor.chunk_size self - PDFProcessor.chunk_overlap self).
Proof.
  intros Hsz Hshort n. set (text := PDFProcessor.normalize T) in *.
  split.
  - assert (Hfree : forall start, 0 <= start < len text ->
                      Chunking.backoff_at self text start = None).
    { intros start Hs. unfold Chunking.backoff_at.
      destruct (start + PDFProcessor.chunk_size self <? len text) eqn:E;
        [lia | reflexivity]. }
    destruct (ChunkingFacts.steps_no_backoff self text Hsz Hfree n 0 (Z.le_refl 0))
      as [Hsome _].
    replace (len text - 0) with (len text) in Hsome by lia.
    destruct Hsome as (tr & Htr & Hlen); [subst n; lia|].
    exists (Chunking.stripped tr).
    rewrite ChunkingFacts.chunk_text_steps. fold text. rewrite Htr.
    split; [reflexivity|]. rewrite ChunkingFacts.length_stripped. exact Hlen.
  - subst n. unfold Chunking.ceil_div.
    set (d := PDFProcessor.chunk_size self - PDFProcessor.chunk_overlap self).
    assert (Hd : 0 < d) by (subst d; lia).
    pose proof (PyStrFacts.len_nonneg text) as Hlen.
    split.
    + intros Hn.
      assert (Hq : (len text + d - 1) / d = 1) by lia.
      pose proof (Z.div_mod (len text + d - 1) d ltac:(lia)) as Hdm.
      pose proof (Z.mod_pos_bound (len text + d - 1) d Hd) as Hm.
      rewrite Hq in Hdm. lia.
    + intros Hrange.
      rewrite <- (Z.div_unique (len text + d - 1) d 1 (len text - 1));
        [reflexivity | lia | lia].
Qed.

Lemma short_text_chunk_count_witness :
  (exists chunks,
     PDFProcessor._chunk_text 1 (PDFProcessor.mk 40 4) Samples.plain = Some chunks
     /\ length chunks = 1%nat)
  /\ (1%nat = 1%nat <->
      0 < len (PDFProcessor.normalize Samples.plain) <= 40 - 4).
Proof.
  apply (short_text_chunk_count (PDFProcessor.mk 40 4) Samples.plain).
  - simpl. lia.
  - vm_compute. reflexivity.
Defined.

(** * Further properties *)

(** ** Stripping and slicing *)

Module StripFacts.

Import Substring.

Lemma lstrip_suffix (s : str) :
  exists spaces, s = spaces ++ lstrip s /\ Forall (fun c => is_space c = true) spaces.
Proof.
  induction s as [|c s IH]; simpl.
  - exists []. split; [reflexivity | constructor].
  - destruct (is_space c) eqn:E.
    + destruct IH as (sp & Hs & Hsp). exists (c :: sp). split.
      * simpl. rewrite <- Hs. reflexivity.
      * constructor; assumption.
    + exists []. split; [reflexivity | constructor].
Qed.

Lemma lstrip_head (s : str) (c : ascii) :
  head (lstrip s) = Some c -> is_space c = false.
Proof.
  induction s as [|x s IH]; simpl; [discriminate|].
  destruct (is_space x) eqn:E; [exact IH|].
  simpl. intros [= <-]. exact E.
Qed.

Lemma rstrip_prefix (s : str) :
  exists spaces, s = rstrip s ++ spaces /\ Forall (fun c => is_space c = true) spaces.
Proof.
  unfold rstrip. destruct (lstrip_suffix (rev s)) as (sp & Hs & Hsp).
  exists (rev sp). split.
  - rewrite <- rev_app_distr, <- Hs, rev_involutive. reflexivity.
  - apply Forall_rev, Hsp.
Qed.

Lemma last_rev_head {A} (l : list A) : last (rev l) = head l.
Proof.
  destruct l as [|x l]; [reflexivity|]. simpl. apply last_snoc.
Qed.

Lemma rstrip_last (s : str) (c : ascii) :
  last (rstrip s) = Some c -> is_space c = false.
Proof.
  unfold rstrip. rewrite last_rev_head. apply lstrip_head.
Qed.

(** [strip] removes whitespace from both ends and nothing else. *)
Lemma strip_decompose (s : str) :
  exists l r, s = l ++ strip s ++ r
              /\ Forall (fun c => is_space c = true) l
              /\ Forall (fun c => is_space c = true) r.
Proof.
  unfold strip.
  destruct (lstrip_suffix s) as (l & Hl & Hls).
  destruct (rstrip_prefix (lstrip s)) as (r & Hr & Hrs).
  exists l, r. split; [|split; assumption].
  rewrite <- Hr. exact Hl.
Qed.

Lemma strip_trimmed (s : str) : trimmed (strip s).
Proof.
  unfold strip. split; intros c Hc.
  - destruct (rstrip_prefix (lstrip s)) as (r & Hr & _).
    apply (lstrip_head s). rewrite Hr.
    destruct (rstrip (lstrip s)); [discriminate Hc | exact Hc].
  - apply (rstrip_last (lstrip s)), Hc.
Qed.

Lemma substring_refl (s : str) : substring s s.
Proof. exists [], []. rewrite app_nil_r. reflexivity. Qed.

Lemma substring_trans (a b c : str) :
  substring a b -> substring b c -> substring a c.
Proof.
  intros (p1 & q1 & H1) (p2 & q2 & H2). subst.
  exists (p2 ++ p1), (q1 ++ q2). rewrite <- !app_assoc. reflexivity.
Qed.

Lemma substring_length (a b : str) : substring a b -> len a <= len b.
Proof.
  intros (p & q & ->). unfold len. rewrite !length_app. lia.
Qed.

Lemma strip_substring (s : str) : substring (strip s) s.
Proof. destruct (strip_decompose s) as (l & r & H & _). exists l, r. exact H. Qed.

Lemma slice_substring (s : str) (a b : Z) : substring (slice s a b) s.
Proof.
  unfold slice.
  set (lo := Z.to_nat (slice_index (len s) a)).
  set (hi := Z.to_nat (slice_index (len s) b)).
  exists (take lo (take hi s)), (drop hi s).
  rewrite app_assoc, take_drop, take_drop. reflexivity.
Qed.

(** A string is blank for [strip] exactly when all its characters are
    whitespace. *)
Lemma lstrip_nil (s : str) :
  lstrip s = [] <-> Forall (fun c => is_space c = true) s.
Proof.
  induction s as [|c s IH]; simpl.
  - split; [constructor | reflexivity].
  - destruct (is_space c) eqn:E.
    + rewrite IH. split; [constructor; assumption | intros H; inversion H; assumption].
    + split; [discriminate | intros H; inversion H; congruence].
Qed.

Lemma strip_nil (s : str) :
  strip s = [] <-> Forall (fun c => is_space c = true) s.
Proof.
  split.
  - intros H. destruct (strip_decompose s) as (l & r & Hs & Hl & Hr).
    rewrite H in Hs. rewrite Hs. apply Forall_app. split; assumption.
  - intros H. unfold strip. apply lstrip_nil in H. rewrite H. reflexivity.
Qed.

Lemma normalize_nil (s : str) :
  PDFProcessor.normalize s = [] <-> strip s = [].
Proof.
  unfold PDFProcessor.normalize. rewrite !strip_nil.
  unfold replace_char. rewrite Forall_map.
  split; intros H; eapply Forall_impl; try exact H; simpl; intros c Hc.
  - destruct (Ascii.eqb c newline) eqn:E; [|exact Hc].
    apply Ascii.eqb_eq in E. subst c. reflexivity.
  - destruct (Ascii.eqb c newline); [reflexivity | exact Hc].
Qed.

End StripFacts.

(** ** More on the chunking loop *)

Module ChunkFacts.

Import PDFProcessor Chunking Substring PyStrFacts StripFacts ChunkingFacts.

(** What is cut in one iteration is a run of the text, no longer than
    the chunk size. *)
Lemma cut_substring (self : t) (text : str) (start : Z) :
  substring (fst (cut self text start)) text.
Proof.
  unfold cut.
  destruct (start + chunk_size self <? len text); [|apply slice_substring].
  destruct (negb (rfind period (slice text start (start + chunk_size self)) =? -1));
    simpl; [|apply slice_substring].
  eapply substring_trans; [apply slice_substring | apply slice_substring].
Qed.

Lemma cut_length (self : t) (text : str) (start : Z) :
  0 <= chunk_size self ->
  len (fst (cut self text start)) <= chunk_size self.
Proof.
  intros Hsz.
  pose proof (len_slice_le text start (start + chunk_size self)) as Hle.
  unfold cut.
  destruct (start + chunk_size self <? len text); [|simpl; lia].
  destruct (negb (rfind period (slice text start (start + chunk_size self)) =? -1));
    simpl; [|lia].
  pose proof (substring_length _ _
                (slice_substring (slice text start (start + chunk_size self)) 0
                   (rfind period (slice text start (start + chunk_size self)) + 1))).
  unfold slice_to. lia.
Qed.

Lemma steps_raw (self : t) (text : str) (fuel : nat) (start : Z)
    (tr : list step) :
  chunk_steps fuel self text start = Some tr ->
  Forall (fun s => substring (st_raw s) text
                   /\ (0 <= chunk_size self -> len (st_raw s) <= chunk_size self)) tr.
Proof.
  revert start tr. induction fuel as [|fuel IH]; intros start tr Hrun.
  - destruct (Z.lt_ge_cases start (len text)) as [Hlt|Hge].
    + rewrite chunk_steps_out_of_fuel in Hrun by exact Hlt. discriminate.
    + rewrite chunk_steps_done in Hrun by exact Hge.
      injection Hrun as <-. constructor.
  - destruct (Z.lt_ge_cases start (len text)) as [Hlt|Hge].
    + rewrite chunk_steps_unfold in Hrun by exact Hlt.
      destruct (chunk_steps fuel self text _) as [tr'|] eqn:E; [|discriminate].
      injection Hrun as <-. constructor; [|exact (IH _ _ E)].
      simpl. split; [apply cut_substring | apply cut_length].
    + rewrite chunk_steps_done in Hrun by exact Hge.
      injection Hrun as <-. constructor.
Qed.

(** A text that is not empty is cut at least once. *)
Lemma steps_nonempty (self : t) (text : str) (fuel : nat) (tr : list step) :
  text <> [] -> chunk_steps fuel self text 0 = Some tr -> tr <> [].
Proof.
  intros Htext Hrun.
  assert (Hlt : 0 < len text) by (destruct text; [congruence | unfold len; simpl; lia]).
  destruct fuel as [|fuel].
  - rewrite chunk_steps_out_of_fuel in Hrun by exact Hlt. discriminate.
  - rewrite chunk_steps_unfold in Hrun by exact Hlt.
    destruct (chunk_steps fuel self text _); [|discriminate].
    injection Hrun as <-. discriminate.
Qed.

End ChunkFacts.

(** X1. Whenever chunking returns, with a chunk size that is not
    negative, no chunk is longer than the chunk size. *)
Theorem chunks_bounded_by_size
    (fuel : nat) (self : PDFProcessor.t) (T : str) (chunks : list str) :
  0 <= PDFProcessor.chunk_size self ->
  PDFProcessor._chunk_text fuel self T = Some chunks ->
  Forall (fun c => len c <= PDFProcessor.chunk_size self) chunks.
Proof.
  intros Hsz. rewrite ChunkingFacts.chunk_text_steps.
  destruct (PDFProcessor.chunk_steps fuel self (PDFProcessor.normalize T) 0)
    as [tr|] eqn:E; [|discriminate].
  intros [= <-]. unfold Chunking.stripped. apply Forall_map.
  eapply Forall_impl; [exact (ChunkFacts.steps_raw _ _ _ _ _ E)|].
  simpl. intros s [_ Hlen].
  pose proof (StripFacts.substring_length _ _
                (StripFacts.strip_substring (PDFProcessor.st_raw s))).
  specialize (Hlen Hsz). lia.
Qed.

Lemma chunks_bounded_by_size_witness :
  Forall (fun c => len c <= 16)
    [lit "Alpha beta."; lit "a. Gamma delta."; lit "a. Epsilon zeta.";
     lit "a. Eta theta."].
Proof.
  apply (chunks_bounded_by_size 4 (PDFProcessor.mk 16 2) Samples.sentences).
  - simpl. lia.
  - vm_compute. reflexivity.
Defined.

(** X2. Whenever chunking returns, every chunk is a run of consecutive
    characters of the normalised text, and neither begins nor ends with
    whitespace. *)
Theorem chunks_are_trimmed_substrings
    (fuel : nat) (self : PDFProcessor.t) (T : str) (chunks : list str) :
  PDFProcessor._chunk_text fuel self T = Some chunks ->
  Forall (fun c => Substring.substring c (PDFProcessor.normalize T)
                   /\ Substring.trimmed c) chunks.
Proof.
  rewrite ChunkingFacts.chunk_text_steps.
  destruct (PDFProcessor.chunk_steps fuel self (PDFProcessor.normalize T) 0)
    as [tr|] eqn:E; [|discriminate].
  intros [= <-]. unfold Chunking.stripped. apply Forall_map.
  eapply Forall_impl; [exact (ChunkFacts.steps_raw _ _ _ _ _ E)|].
  simpl. intros s [Hsub _]. split.
  - eapply StripFacts.substring_trans; [apply StripFacts.strip_substring | exact Hsub].
  - apply StripFacts.strip_trimmed.
Qed.

Lemma chunks_are_trimmed_substrings_witness :
  Forall (fun c => Substring.substring c (PDFProcessor.normalize Samples.sentences)
                   /\ Substring.trimmed c)
    [lit "Alpha beta."; lit "a. Gamma delta."; lit "a. Epsilon zeta.";
     lit "a. Eta theta."].
Proof.
  apply (chunks_are_trimmed_substrings 4 (PDFProcessor.mk 16 2) Samples.sentences).
  vm_compute. reflexivity.
Defined.

(** ** Documents of a PDF file *)

Module PDFDocumentsFacts.

Import PDFProcessor PDFDocuments.

Lemma documents_from_lookup (file : PdfFile) (total first : Z)
    (chunks : list str) (i : nat) (d : Document) :
  documents_from file total first chunks !! i = Some d ->
  chunks !! i = Some (content d)
  /\ chunk (metadata d) = first + Z.of_nat i
  /\ total_chunks (metadata d) = total
  /\ source (metadata d) = pdf_basename file
  /\ file_path d = pdf_path file.
Proof.
  revert first i. induction chunks as [|c chunks IH]; intros first i; simpl.
  - rewrite lookup_nil. discriminate.
  - destruct i as [|i]; simpl.
    + intros [= <-]. simpl. repeat split; lia.
    + intros H. apply IH in H. destruct H as (H1 & H2 & H3). repeat split; try tauto. lia.
Qed.

Lemma length_documents_from (file : PdfFile) (total first : Z)
    (chunks : list str) :
  length (documents_from file total first chunks) = length chunks.
Proof.
  revert first. induction chunks as [|c chunks IH]; intros first; simpl;
    [reflexivity | rewrite IH; reflexivity].
Qed.

End PDFDocumentsFacts.

(** X3. When [process] returns documents for a PDF file, there is at
    least one; the document at position [i] holds the chunk at position
    [i] of the chunked text, its [chunk] number is [i], and its
    [total_chunks] is the number of documents returned. *)
Theorem process_numbers_documents
    (fuel : nat) (self : PDFProcessor.t) (file : PDFDocuments.PdfFile)
    (docs : list PDFDocuments.Document) :
  PDFDocuments.process fuel self file = Some (Some docs) ->
  docs <> []
  /\ PDFProcessor._chunk_text fuel self
       (PDFDocuments.full_text (PDFDocuments.pdf_pages file))
     = Some (map PDFDocuments.content docs)
  /\ forall (i : nat) (d : PDFDocuments.Document),
       docs !! i = Some d ->
       PDFDocuments.chunk (PDFDocuments.metadata d) = Z.of_nat i
       /\ PDFDocuments.total_chunks (PDFDocuments.metadata d) = len docs.
Proof.
  unfold PDFDocuments.process.
  set (text := PDFDocuments.full_text (PDFDocuments.pdf_pages file)).
  destruct (strip text) as [|c s] eqn:Hstrip; [discriminate|].
  destruct (PDFProcessor._chunk_text fuel self text) as [chunks|] eqn:Hrun;
    [|discriminate].
  simpl. intros [= <-].
  assert (Hlen : len (PDFDocuments.documents_from file (len chunks) 0 chunks)
                 = len chunks).
  { unfold len. rewrite PDFDocumentsFacts.length_documents_from. reflexivity. }
  split; [|split].
  - rewrite ChunkingFacts.chunk_text_steps in Hrun.
    destruct (PDFProcessor.chunk_steps fuel self (PDFProcessor.normalize text) 0)
      as [tr|] eqn:E; [|discriminate].
    injection Hrun as <-.
    assert (Htr : tr <> []).
    { apply (ChunkFacts.steps_nonempty self (PDFProcessor.normalize text) fuel);
        [|exact E].
      rewrite StripFacts.normalize_nil, Hstrip. discriminate. }
    destruct tr; [congruence | discriminate].
  - f_equal. apply list_eq. intros i. rewrite list_lookup_fmap.
    destruct (PDFDocuments.documents_from file (len chunks) 0 chunks !! i)
      as [d|] eqn:E; simpl.
    + apply PDFDocumentsFacts.documents_from_lookup in E. tauto.
    + apply lookup_ge_None in E.
      rewrite PDFDocumentsFacts.length_documents_from in E.
      apply lookup_ge_None. exact E.
  - intros i d Hd. apply PDFDocumentsFacts.documents_from_lookup in Hd.
    rewrite Hlen. destruct Hd as (_ & H1 & H2 & _). split; [lia | exact H2].
Qed.

Lemma process_numbers_documents_witness :
  let docs :=
    PDFDocuments.documents_from MoreSamples.report 4 0
      [lit "Alpha beta."; lit "a. Gamma delta."; lit "a. Epsilon zeta.";
       lit "a. Eta theta."] in
  docs <> []
  /\ PDFProcessor._chunk_text 4 (PDFProcessor.mk 16 2)
       (PDFDocuments.full_text (PDFDocuments.pdf_pages MoreSamples.report))
     = Some (map PDFDocuments.content docs)
  /\ forall (i : nat) (d : PDFDocuments.Document),
       docs !! i = Some d ->
       PDFDocuments.chunk (PDFDocuments.metadata d) = Z.of_nat i
       /\ PDFDocuments.total_chunks (PDFDocuments.metadata d) = len docs.
Proof.
  intros docs.
  apply (process_numbers_documents 4 (PDFProcessor.mk 16 2) MoreSamples.report docs).
  vm_compute. reflexivity.
Defined.

(** ** More on the rate limiter *)

Module RateLimiterRunFacts.

Import RateLimiter RateLimiterRuns.

Lemma check_config (self : t) (client : string) (now : Q) :
  rate_limit (snd (check self client now)) = rate_limit self
  /\ window (snd (check self client now)) = window self.
Proof.
  unfold check. destruct (len _ >=? rate_limit self); simpl; auto.
Qed.

Lemma recent_config (self self' : t) :
  window self' = window self -> recent self' = recent self.
Proof.
  destruct self, self'. simpl. intros ->. reflexivity.
Qed.

(** What [check] did, read off its answer. *)
Lemma check_cases (self : t) (client : string) (now : Q) :
  let kept := List.filter (recent self now)
                (default [] (requests self !! client)) in
  (fst (check self client now) = true
   /\ len kept < rate_limit self
   /\ requests (snd (check self client now))
      = <[client := kept ++ [now]]> (requests self))
  \/ (fst (check self client now) = false
      /\ rate_limit self <= len kept
      /\ snd (check self client now) = self).
Proof.
  intros kept. unfold check. fold kept.
  destruct (len kept >=? rate_limit self) eqn:E; simpl.
  - right. repeat split. lia.
  - left. repeat split. lia.
Qed.

Lemma recent_mono (self : t) (t0 now x : Q) :
  (t0 <= now)%Q -> recent self now x = true -> recent self t0 x = true.
Proof.
  intros Hle. unfold recent.
  destruct (Qlt_le_dec (now - x) (window self)) as [H1|H1]; [|discriminate].
  destruct (Qlt_le_dec (t0 - x) (window self)) as [H2|H2]; [reflexivity|].
  intros _. exfalso. lra.
Qed.

Lemma filter_filter_impl {A} (P Q : A -> bool) (l : list A) :
  (forall x, P x = true -> Q x = true) ->
  List.filter P (List.filter Q l) = List.filter P l.
Proof.
  intros H. induction l as [|x l IH]; simpl; [reflexivity|].
  destruct (Q x) eqn:EQ; simpl.
  - rewrite IH. reflexivity.
  - destruct (P x) eqn:EP; [|exact IH].
    apply H in EP. congruence.
Qed.

Lemma serve_window (reqs : list (string * Q)) :
  forall (self : t) (adm : string -> list Q) (lo : Q),
    tracks self adm lo ->
    chronological reqs ->
    Forall (fun r => (lo <= snd r)%Q) reqs ->
    forall pre c now post,
      fst (serve self reqs) = pre ++ (c, now, true) :: post ->
      len (List.filter (recent self now) (adm c ++ admitted c pre))
      < rate_limit self.
Proof.
  induction reqs as [|[c0 t0] rest IH];
    intros self adm lo Htr Hchr Hlo pre c now post Hrun.
  - simpl in Hrun. destruct pre; discriminate.
  - simpl in Hrun.
    pose proof (check_cases self c0 t0) as Hcases.
    pose proof (check_config self c0 t0) as [Hlim Hwin].
    destruct (check self c0 t0) as [b self'] eqn:Hc.
    destruct (serve self' rest) as [answers self''] eqn:Hs.
    simpl in Hrun, Hcases, Hlim, Hwin.
    inversion Hchr as [|? ? Hchr' Hall]; subst.
    inversion Hlo as [|? ? Hlo0 _]; subst. simpl in Hlo0.
    destruct pre as [|x pre].
    + simpl in Hrun. injection Hrun as -> -> -> _.
      destruct Hcases as [(_ & Hlt & _)|(Hf & _)]; [|discriminate].
      rewrite app_nil_r, <- (Htr c now Hlo0). exact Hlt.
    + simpl in Hrun. injection Hrun as <- Hrest.
      set (adm' := fun k => if b && String.eqb c0 k then adm k ++ [t0] else adm k).
      assert (Htr' : tracks self' adm' t0).
      { intros k now' Hnow'.
        rewrite (recent_config self self') by exact Hwin.
        assert (Hlo' : (lo <= now')%Q) by (eapply Qle_trans; eassumption).
        destruct Hcases as [(-> & _ & Hreq)|(-> & _ & ->)].
        - rewrite Hreq. subst adm'. simpl.
          destruct (String.eqb c0 k) eqn:Ek.
          + apply String.eqb_eq in Ek. subst k.
            rewrite lookup_insert_eq. simpl.
            rewrite !List.filter_app, filter_filter_impl
              by (intros x; apply recent_mono; exact Hnow').
            rewrite (Htr c0 now' Hlo'). reflexivity.
          + apply String.eqb_neq in Ek.
            rewrite lookup_insert_ne by exact Ek. apply Htr, Hlo'.
        - subst adm'. simpl. apply Htr, Hlo'. }
      assert (Hrest' : fst (serve self' rest) = pre ++ (c, now, true) :: post)
        by (rewrite Hs; exact Hrest).
      pose proof (IH self' adm' t0 Htr' Hchr' Hall pre c now post Hrest') as Hgoal.
      rewrite Hlim, (recent_config self self') in Hgoal by exact Hwin.
      replace (adm c ++ admitted c ((c0, t0, b) :: pre))
        with (adm' c ++ admitted c pre); [exact Hgoal|].
      subst adm'. simpl.
      destruct (b && String.eqb c0 c); [rewrite <- app_assoc|]; reflexivity.
Qed.

Lemma check_bounded (self : t) (client : string) (now : Q) :
  bounded self -> bounded (snd (check self client now)).
Proof.
  intros Hb. pose proof (check_config self client now) as [Hlim _].
  destruct (check_cases self client now) as [(_ & Hlt & Hreq)|(_ & _ & ->)];
    [|exact Hb].
  intros c l. rewrite Hreq, Hlim.
  destruct (decide (client = c)) as [->|Hne].
  - rewrite lookup_insert_eq. intros [= <-].
    unfold len in *. rewrite length_app. simpl. lia.
  - rewrite lookup_insert_ne by exact Hne. apply Hb.
Qed.

Lemma serve_config (reqs : list (string * Q)) (self : t) :
  rate_limit (snd (serve self reqs)) = rate_limit self.
Proof.
  revert self. induction reqs as [|[c0 t0] rest IH]; intros self; simpl;
    [reflexivity|].
  pose proof (check_config self c0 t0) as [Hlim _].
  destruct (check self c0 t0) as [b self'].
  specialize (IH self'). destruct (serve self' rest) as [answers self''].
  simpl in *. congruence.
Qed.

Lemma serve_bounded (reqs : list (string * Q)) (self : t) :
  bounded self -> bounded (snd (serve self reqs)).
Proof.
  revert self. induction reqs as [|[c0 t0] rest IH]; intros self Hb; simpl;
    [exact Hb|].
  pose proof (check_bounded self c0 t0 Hb) as Hb'.
  destruct (check self c0 t0) as [b self'].
  specialize (IH self' Hb'). destruct (serve self' rest) as [answers self''].
  exact IH.
Qed.

End RateLimiterRunFacts.

(** X4. A check for one identity changes nothing for another: the
    other identity's stored instants are the same afterwards, and so is
    the answer to any check made for it. *)
Theorem check_isolates_identities
    (self : RateLimiter.t) (client other : string) (now now' : Q) :
  client <> other ->
  RateLimiter.requests (snd (RateLimiter.check self client now)) !! other
  = RateLimiter.requests self !! other
  /\ fst (RateLimiter.check (snd (RateLimiter.check self client now)) other now')
     = fst (RateLimiter.check self other now').
Proof.
  intros Hne.
  pose proof (RateLimiterRunFacts.check_config self client now) as [Hlim Hwin].
  assert (Hreq : RateLimiter.requests (snd (RateLimiter.check self client now)) !! other
                 = RateLimiter.requests self !! other).
  { destruct (RateLimiterRunFacts.check_cases self client now)
      as [(_ & _ & ->)|(_ & _ & ->)]; [|reflexivity].
    apply lookup_insert_ne, Hne. }
  split; [exact Hreq|].
  unfold RateLimiter.check at 1 3. rewrite Hreq, Hlim.
  unfold RateLimiter.recent. rewrite Hwin.
  destruct (len _ >=? RateLimiter.rate_limit self); reflexivity.
Qed.

Lemma check_isolates_identities_witness :
  RateLimiter.requests
    (snd (RateLimiter.check (RateLimiter.__init__ (Some 1)) "a" 0%Q)) !! "b"
  = RateLimiter.requests (RateLimiter.__init__ (Some 1)) !! "b"
  /\ fst (RateLimiter.check
            (snd (RateLimiter.check (RateLimiter.__init__ (Some 1)) "a" 0%Q))
            "b" 1%Q)
     = fst (RateLimiter.check (RateLimiter.__init__ (Some 1)) "b" 1%Q).
Proof.
  apply (check_isolates_identities (RateLimiter.__init__ (Some 1)) "a" "b" 0%Q 1%Q).
  discriminate.
Defined.

(** X5. Requests served in the order of their instants by a limiter
    that starts without history: whenever a request is admitted, fewer
    than [rate_limit] requests of the same identity were admitted less
    than [window] seconds before it; so no window ending at an admitted
    request holds more than [rate_limit] admitted requests of one
    identity. *)
Theorem admissions_respect_window
    (self : RateLimiter.t) (reqs : list (string * Q))
    (pre post : list (string * Q * bool)) (client : string) (now : Q) :
  RateLimiter.requests self = ∅ ->
  RateLimiterRuns.chronological reqs ->
  fst (RateLimiterRuns.serve self reqs) = pre ++ (client, now, true) :: post ->
  len (List.filter (RateLimiter.recent self now)
         (RateLimiterRuns.admitted client pre))
  < RateLimiter.rate_limit self.
Proof.
  intros Hempty Hchr Hrun.
  destruct reqs as [|[c0 t0] rest].
  - simpl in Hrun. destruct pre; discriminate.
  - apply (RateLimiterRunFacts.serve_window ((c0, t0) :: rest) self
             (fun _ => []) t0) with (post := post);
      [ | exact Hchr | | exact Hrun].
    + intros c t _. rewrite Hempty, lookup_empty. reflexivity.
    + inversion Hchr as [|? ? _ Hall]; subst.
      constructor; [apply Qle_refl | exact Hall].
Qed.

Lemma admissions_respect_window_witness :
  len (List.filter (RateLimiter.recent (RateLimiter.__init__ (Some 2)) 61%Q)
         (RateLimiterRuns.admitted "a"
            [("a", 0%Q, true); ("b", (1 # 2)%Q, true); ("a", 1%Q, true);
             ("a", 2%Q, false)]%string))
  < RateLimiter.rate_limit (RateLimiter.__init__ (Some 2)).
Proof.
  apply (admissions_respect_window (RateLimiter.__init__ (Some 2))
           MoreSamples.traffic _ [] "a" 61%Q).
  - reflexivity.
  - unfold RateLimiterRuns.chronological, MoreSamples.traffic.
    repeat constructor; unfold Qle; simpl; lia.
  - vm_compute. reflexivity.
Defined.

(** X6. In a limiter that starts without history, after any requests,
    the history stored for an identity is never empty and never longer
    than [rate_limit]. *)
Theorem stored_history_bounded
    (self : RateLimiter.t) (reqs : list (string * Q))
    (client : string) (history : list Q) :
  RateLimiter.requests self = ∅ ->
  RateLimiter.requests (snd (RateLimiterRuns.serve self reqs)) !! client
  = Some history ->
  0 < len history <= RateLimiter.rate_limit self.
Proof.
  intros Hempty Hstored.
  rewrite <- (RateLimiterRunFacts.serve_config reqs self).
  apply (RateLimiterRunFacts.serve_bounded reqs self) with (c := client);
    [|exact Hstored].
  intros c l. rewrite Hempty, lookup_empty. discriminate.
Qed.

Lemma stored_history_bounded_witness :
  0 < len [61%Q] <= RateLimiter.rate_limit (RateLimiter.__init__ (Some 2)).
Proof.
  apply (stored_history_bounded (RateLimiter.__init__ (Some 2))
           MoreSamples.traffic "a").
  - reflexivity.
  - vm_compute. reflexivity.
Defined.

(** ** More on the dispatcher *)

Module MCPServerRunFacts.

Import MCPServer MCPServerRuns.

Lemma register_all_spec {W} (regs : list (string * callable W)) :
  forall (self : MCPServer.t W) (e : env W) (name : string),
    tools (fst (register_all self regs e)) !! name
    = match last_registered name regs with
      | Some tool => Some tool
      | None => tools self !! name
      end
    /\ executor_shutdown (fst (register_all self regs e)) = executor_shutdown self
    /\ world (snd (register_all self regs e)) = world e
    /\ calls (snd (register_all self regs e)) = calls e
    /\ length (log (snd (register_all self regs e)))
       = (length (log e) + length regs)%nat.
Proof.
  induction regs as [|[n tool] rest IH]; intros self e name; simpl.
  - repeat split. lia.
  - destruct (IH (mk (<[n := tool]> (tools self)) (executor_shutdown self))
                 (logging INFO ("Registered tool: " +:+ n) e) name)
      as (Ht & Hx & Hw & Hc & Hl).
    rewrite Ht, Hx, Hw, Hc, Hl. simpl. rewrite length_app. simpl.
    repeat split; try lia.
    destruct (last_registered name rest); [reflexivity|].
    destruct (String.eqb n name) eqn:E.
    + apply String.eqb_eq in E. subst. apply lookup_insert_eq.
    + apply String.eqb_neq in E. apply lookup_insert_ne, E.
Qed.

(** A tool that returns, run without keyword arguments on a live
    executor. *)
Lemma execute_tool_returns {W} (self : MCPServer.t W) (name : string)
    (tool : callable W) (args : list value) (e : env W) (v : value) (w' : W) :
  tools self !! name = Some tool ->
  executor_shutdown self = false ->
  call tool args [] (world e) = (Ok v, w') ->
  execute_tool self name args [] e
  = (Ok v, self, mk_env w' (log e) (calls e ++ [mk_invocation name args []])).
Proof.
  intros Hreg Hlive Hcall. unfold execute_tool. rewrite Hreg.
  unfold run_in_executor, run. rewrite Hlive, Hcall.
  destruct (iscoroutinefunction tool); reflexivity.
Qed.

End MCPServerRunFacts.

(** X7. After any registrations, the tool found under a name is the
    one registered last under that name, or, for a name that was not
    among them, the tool found before; registering touches nothing but
    the mapping and the log, which gains one record per registration. *)
Theorem last_registration_wins
    {W : Type} (self : MCPServer.t W)
    (regs : list (string * MCPServer.callable W)) (e : MCPServer.env W)
    (name : string) :
  MCPServer.tools (fst (MCPServerRuns.register_all self regs e)) !! name
  = match MCPServerRuns.last_registered name regs with
    | Some tool => Some tool
    | None => MCPServer.tools self !! name
    end
  /\ MCPServer.executor_shutdown (fst (MCPServerRuns.register_all self regs e))
     = MCPServer.executor_shutdown self
  /\ MCPServer.world (snd (MCPServerRuns.register_all self regs e))
     = MCPServer.world e
  /\ MCPServer.calls (snd (MCPServerRuns.register_all self regs e))
     = MCPServer.calls e
  /\ length (MCPServer.log (snd (MCPServerRuns.register_all self regs e)))
     = (length (MCPServer.log e) + length regs)%nat.
Proof. apply MCPServerRunFacts.register_all_spec. Qed.

(** X8. After [cleanup], invoking a registered synchronous tool fails
    with the executor's [RuntimeError], which is logged; the tool's
    implementation is not run and the world of the tools is untouched.
    A registered coroutine tool runs as it did before [cleanup]. *)
Theorem cleanup_stops_synchronous_tools
    {W : Type} (self : MCPServer.t W) (tool_name : string)
    (tool : MCPServer.callable W) (args : list value)
    (kw : MCPServer.kwargs) (e : MCPServer.env W) :
  MCPServer.tools self !! tool_name = Some tool ->
  (MCPServer.iscoroutinefunction tool = false ->
   MCPServer.execute_tool (MCPServer.cleanup self) tool_name args kw e
   = (Raise (RuntimeError "cannot schedule new futures after shutdown"),
      MCPServer.cleanup self,
      MCPServer.logging ERROR
        ("Error executing tool " +:+ tool_name
         +:+ ": cannot schedule new futures after shutdown") e))
  /\ (MCPServer.iscoroutinefunction tool = true ->
      fst (fst (MCPServer.execute_tool (MCPServer.cleanup self) tool_name args kw e))
      = fst (fst (MCPServer.execute_tool self tool_name args kw e))
      /\ snd (MCPServer.execute_tool (MCPServer.cleanup self) tool_name args kw e)
         = snd (MCPServer.execute_tool self tool_name args kw e)).
Proof.
  intros Hreg. unfold MCPServer.execute_tool, MCPServer.cleanup. simpl.
  rewrite Hreg. split; intros Hco; rewrite Hco.
  - reflexivity.
  - destruct (MCPServer.run tool_name tool args kw e) as [[v|ex] e1].
    + auto.
    + destruct (is_Exception ex); auto.
Qed.

Lemma cleanup_stops_synchronous_tools_witness :
  MCPServer.execute_tool (MCPServer.cleanup Samples.server) "echo_sync"
    [VInt 7] [] Samples.process
  = (Raise (RuntimeError "cannot schedule new futures after shutdown"),
     MCPServer.cleanup Samples.server,
     MCPServer.logging ERROR
       ("Error executing tool " +:+ "echo_sync"
        +:+ ": cannot schedule new futures after shutdown") Samples.process).
Proof.
  destruct (cleanup_stops_synchronous_tools Samples.server "echo_sync"
              (Samples.echo false) [VInt 7] [] Samples.process) as [Hsync _].
  - vm_compute. reflexivity.
  - apply Hsync. reflexivity.
Defined.

(** ** More on the query pipeline *)

Module CLIFacts.

Import MCPServer CLIInterface CLIOutcomes.

Section WithWorld.

Context {W : Type}.

Lemma returns_ret {A} (P : A -> Prop) (a : A) :
  P a -> returns P (ret W a).
Proof. intros H self e. simpl. auto. Qed.

Lemma returns_bind {A B} (P : A -> Prop) (Q : B -> Prop)
    (m : M W A) (k : A -> M W B) :
  returns P m -> (forall a, P a -> returns Q (k a)) ->
  returns Q (bind W m k).
Proof.
  intros Hm Hk self e. unfold bind.
  specialize (Hm self e).
  destruct (m self e) as [[[a|ex] self'] e']; simpl in *.
  - destruct Hm as [Hmcp Ha]. destruct (Hk a Ha self' e') as [Hmcp' Hq].
    split; [congruence | exact Hq].
  - tauto.
Qed.

Lemma returns_await (tool_name : string) (args : list value) :
  returns (fun _ => True) (await_execute_tool W tool_name args).
Proof.
  intros self e. unfold await_execute_tool.
  pose proof (MCPServerFacts.execute_tool_self (mcp self) tool_name args [] e) as Hs.
  destruct (execute_tool (mcp self) tool_name args [] e) as [[r m] e'].
  simpl in *. split; [exact Hs|]. destruct r; exact I.
Qed.

Lemma returns_getitem (key : string) :
  returns (fun _ => True) (tools_getitem W key).
Proof.
  intros self e. unfold tools_getitem.
  destruct (tools (mcp self) !! key); simpl; auto.
Qed.

(** The body of the [try] block returns a triple whose flag is
    [False]. *)
Lemma body_returns (query : string) :
  returns (fun out : value * value * bool => snd out = false)
    (bind W (await_execute_tool W "query_vector_store" [VStr query])
       (fun results =>
          bind W (if truthy results
                  then await_execute_tool W "format_response"
                         [VStr query; results]
                  else ret W VNone)
            (fun context =>
               bind W (await_execute_tool W "generate_response"
                         [VStr query; context])
                 (fun response =>
                    bind W (tools_getitem W "generate_response")
                      (fun tool =>
                         bind W
                           match attributes tool !! "conversation_history" with
                           | Some h => set_conversation_history W h
                           | None => ret W tt
                           end
                           (fun _ => ret W (response, results, false))))))).
Proof.
  eapply returns_bind; [apply returns_await|]. intros results _.
  eapply returns_bind with (P := fun _ => True).
  { destruct (truthy results); [apply returns_await | apply returns_ret; exact I]. }
  intros context _.
  eapply returns_bind; [apply returns_await|]. intros response _.
  eapply returns_bind; [apply returns_getitem|]. intros tool _.
  eapply returns_bind with (P := fun _ => True).
  { destruct (attributes tool !! "conversation_history").
    - intros self e. simpl. auto.
    - apply returns_ret. exact I. }
  intros _ _. apply returns_ret. reflexivity.
Qed.

End WithWorld.

End CLIFacts.

(** X9. Whatever the registered tools do, [_process_query] raises no
    exception that derives from [Exception]; when it returns, the third
    component of its result is [False]; and it leaves [self.mcp] as it
    was. *)
Theorem process_query_contains_exceptions
    {W : Type} (self : CLIInterface.t W) (query : string)
    (e : MCPServer.env W) :
  CLIInterface.mcp (snd (fst (CLIInterface._process_query query self e)))
  = CLIInterface.mcp self
  /\ match fst (fst (CLIInterface._process_query query self e)) with
     | Ok out => snd out = false
     | Raise ex => is_Exception ex = false
     end.
Proof.
  pose proof (CLIFacts.body_returns (W := W) query self e) as Hbody.
  unfold CLIInterface._process_query, CLIInterface.try_except_Exception.
  unfold mbind, CLIInterface.M_bind, mret, CLIInterface.M_ret.
  destruct (CLIInterface.bind W _ _ self e) as [[[out|ex] self'] e'];
    simpl in Hbody |- *.
  - exact Hbody.
  - destruct Hbody as [Hmcp _].
    destruct (is_Exception ex) eqn:Hex; simpl; auto.
Qed.

(** X10. When the three capabilities are registered on a live executor
    and return, [_process_query] returns the model's response with the
    retrieved matches.  The formatter is invoked only for matches that
    are truthy, and the model then receives its output as context; for
    falsy matches (an empty list) the model receives [None].  Nothing is
    logged. *)
Theorem process_query_success
    {W : Type} (self : CLIInterface.t W) (query : string)
    (e : MCPServer.env W)
    (retrieve format generate : MCPServer.callable W)
    (results context response : value) (w1 w2 w3 : W) :
  MCPServer.executor_shutdown (CLIInterface.mcp self) = false ->
  MCPServer.tools (CLIInterface.mcp self) !! "query_vector_store" = Some retrieve ->
  MCPServer.tools (CLIInterface.mcp self) !! "format_response" = Some format ->
  MCPServer.tools (CLIInterface.mcp self) !! "generate_response" = Some generate ->
  MCPServer.call retrieve [VStr query] [] (MCPServer.world e) = (Ok results, w1) ->
  (if truthy results
   then MCPServer.call format [VStr query; results] [] w1
   else (Ok VNone, w1)) = (Ok context, w2) ->
  MCPServer.call generate [VStr query; context] [] w2 = (Ok response, w3) ->
  let out := CLIInterface._process_query query self e in
  fst (fst out) = Ok (response, results, false)
  /\ MCPServer.world (snd out) = w3
  /\ MCPServer.log (snd out) = MCPServer.log e
  /\ MCPServer.calls (snd out)
     = MCPServer.calls e
       ++ [MCPServer.mk_invocation "query_vector_store" [VStr query] []]
       ++ (if truthy results
           then [MCPServer.mk_invocation "format_response"
                   [VStr query; results] []]
           else [])
       ++ [MCPServer.mk_invocation "generate_response" [VStr query; context] []].
Proof.
  intros Hlive Hq Hf Hg Hcq Hcf Hcg out. subst out.
  destruct self as [m h]. simpl in Hlive, Hq, Hf, Hg.
  unfold CLIInterface._process_query, CLIInterface.try_except_Exception.
  cbv [mbind mret CLIInterface.M_bind CLIInterface.M_ret CLIInterface.bind
       CLIInterface.ret CLIInterface.await_execute_tool
       CLIInterface.tools_getitem CLIInterface.set_conversation_history
       CLIInterface.mcp CLIInterface.conversation_history].
  rewrite (MCPServerRunFacts.execute_tool_returns m "query_vector_store"
             retrieve [VStr query] e results w1 Hq Hlive Hcq).
  set (e1 := MCPServer.mk_env w1 (MCPServer.log e)
               (MCPServer.calls e
                ++ [MCPServer.mk_invocation "query_vector_store" [VStr query] []])).
  destruct (truthy results) eqn:Htruthy.
  - rewrite (MCPServerRunFacts.execute_tool_returns m "format_response"
               format [VStr query; results] e1 context w2 Hf Hlive Hcf).
    set (e2 := MCPServer.mk_env w2 (MCPServer.log e1)
                 (MCPServer.calls e1
                  ++ [MCPServer.mk_invocation "format_response"
                        [VStr query; results] []])).
    rewrite (MCPServerRunFacts.execute_tool_returns m "generate_response"
               generate [VStr query; context] e2 response w3 Hg Hlive Hcg).
    rewrite Hg.
    destruct (MCPServer.attributes generate !! "conversation_history");
      simpl; rewrite <- !app_assoc; auto.
  - injection Hcf as <- <-.
    rewrite (MCPServerRunFacts.execute_tool_returns m "generate_response"
               generate [VStr query; VNone] e1 response w3 Hg Hlive Hcg).
    rewrite Hg.
    destruct (MCPServer.attributes generate !! "conversation_history");
      simpl; rewrite <- !app_assoc; auto.
Qed.

Lemma process_query_success_witness :
  let out := CLIInterface._process_query "hours?"
               (CLIInterface.mk (MoreSamples.pipeline (VList [])) None)
               Samples.process in
  fst (fst out) = Ok (VStr "answer", VList [], false)
  /\ MCPServer.world (snd out) = tt
  /\ MCPServer.log (snd out) = []
  /\ MCPServer.calls (snd out)
     = [] ++ [MCPServer.mk_invocation "query_vector_store" [VStr "hours?"] []]
       ++ []
       ++ [MCPServer.mk_invocation "generate_response" [VStr "hours?"; VNone] []].
Proof.
  apply (process_query_success
           (CLIInterface.mk (MoreSamples.pipeline (VList [])) None) "hours?"
           Samples.process (MoreSamples.finds (VList [])) MoreSamples.formatter
           MoreSamples.model (VList []) VNone (VStr "answer") tt tt tt);
    vm_compute; reflexivity.
Defined.

(** ** More on the registry *)

Module PyDictMoreFacts.

Import PyDict PyDictFacts.

Lemma get_set_eq {V} (k : string) (v : V) (d : dict V) :
  get k (set k v d) = Some v.
Proof.
  induction d as [|[k' v'] d IH]; simpl.
  - rewrite String.eqb_refl. reflexivity.
  - destruct (String.eqb k k') eqn:E; simpl.
    + rewrite String.eqb_refl. reflexivity.
    + rewrite E. exact IH.
Qed.

Lemma get_set_ne {V} (k k' : string) (v : V) (d : dict V) :
  k <> k' -> get k' (set k v d) = get k' d.
Proof.
  intros Hne. induction d as [|[k0 v0] d IH]; simpl.
  - destruct (String.eqb k' k) eqn:E; [|reflexivity].
    apply String.eqb_eq in E. congruence.
  - destruct (String.eqb k k0) eqn:E; simpl.
    + apply String.eqb_eq in E. subst k0.
      destruct (String.eqb k' k) eqn:E'; [|reflexivity].
      apply String.eqb_eq in E'. congruence.
    + rewrite IH. reflexivity.
Qed.

Lemma get_None_keys {V} (k : string) (d : dict V) :
  get k d = None <-> ~ In k (keys d).
Proof.
  rewrite <- mem_keys. unfold mem.
  destruct (get k d); split; intros H; congruence.
Qed.

Lemma set_fresh {V} (k : string) (v : V) (d : dict V) :
  get k d = None -> set k v d = d ++ [(k, v)].
Proof.
  induction d as [|[k' v'] d IH]; simpl; [reflexivity|].
  destruct (String.eqb k k'); [discriminate|].
  intros H. rewrite IH by exact H. reflexivity.
Qed.

Lemma del_keys {V} (k : string) (d d' : dict V) :
  del k d = Some d' -> forall x, In x (keys d') -> In x (keys d).
Proof.
  revert d'. induction d as [|[k' v'] d IH]; simpl; intros d'; [discriminate|].
  destruct (String.eqb k k').
  - intros [= <-] x Hx. right. exact Hx.
  - destruct (del k d) as [d0|]; simpl; [|discriminate].
    intros [= <-] x [Hx|Hx]; [left; exact Hx | right; eapply IH; eauto].
Qed.

Lemma NoDup_keys_del {V} (k : string) (d d' : dict V) :
  List.NoDup (keys d) -> del k d = Some d' -> List.NoDup (keys d').
Proof.
  revert d'. induction d as [|[k' v'] d IH]; simpl; intros d' Hd; [discriminate|].
  inversion Hd as [|? ? Hnot Hd0]; subst.
  destruct (String.eqb k k').
  - intros [= <-]. exact Hd0.
  - destruct (del k d) as [d0|] eqn:E; simpl; [|discriminate].
    intros [= <-]. simpl. constructor; [|apply IH; auto].
    intros Hin. apply Hnot. eapply del_keys; eauto.
Qed.

Lemma get_del_eq {V} (k : string) (d d' : dict V) :
  List.NoDup (keys d) -> del k d = Some d' -> get k d' = None.
Proof.
  revert d'. induction d as [|[k' v'] d IH]; simpl; intros d' Hd; [discriminate|].
  inversion Hd as [|? ? Hnot Hd0]; subst.
  destruct (String.eqb k k') eqn:E.
  - apply String.eqb_eq in E. subst k'. intros [= <-].
    apply get_None_keys. exact Hnot.
  - destruct (del k d) as [d0|] eqn:E'; simpl; [|discriminate].
    intros [= <-]. simpl. rewrite E. apply IH; auto.
Qed.

Lemma get_del_ne {V} (k k' : string) (d d' : dict V) :
  k <> k' -> del k d = Some d' -> get k' d' = get k' d.
Proof.
  intros Hne. revert d'.
  induction d as [|[k0 v0] d IH]; simpl; intros d'; [discriminate|].
  destruct (String.eqb k k0) eqn:E.
  - apply String.eqb_eq in E. subst k0. intros [= <-].
    destruct (String.eqb k' k) eqn:E'; [|reflexivity].
    apply String.eqb_eq in E'. congruence.
  - destruct (del k d) as [d0|] eqn:E'; simpl; [|discriminate].
    intros [= <-]. simpl. rewrite (IH d0 eq_refl). reflexivity.
Qed.

Lemma del_present {V} (k : string) (v : V) (d : dict V) :
  get k d = Some v -> exists d', del k d = Some d'.
Proof.
  induction d as [|[k' v'] d IH]; simpl; [discriminate|].
  destruct (String.eqb k k'); [eauto|].
  intros H. destruct (IH H) as [d' ->]. simpl. eauto.
Qed.

(** A comprehension over a dictionary lists its items in order. *)
Lemma comprehension_items {V V'} (f : V -> V') (d : dict V) :
  List.NoDup (keys d) ->
  comprehension f d = map (fun item => (fst item, f (snd item))) d.
Proof.
  unfold comprehension.
  assert (G : forall acc : dict V',
            List.NoDup (keys acc ++ keys d) ->
            fold_left (fun acc kv => set (fst kv) (f (snd kv)) acc) d acc
            = acc ++ map (fun item => (fst item, f (snd item))) d).
  { induction d as [|[k v] d IH]; intros acc Hnd; simpl.
    - rewrite app_nil_r. reflexivity.
    - simpl in Hnd. rewrite set_fresh.
      + rewrite IH.
        * rewrite <- app_assoc. reflexivity.
        * unfold keys in *. rewrite map_app. simpl.
          rewrite <- app_assoc. exact Hnd.
      + apply get_None_keys. intros Hin.
        apply NoDup_remove_2 in Hnd. apply Hnd.
        apply in_or_app. left. exact Hin. }
  intros Hd. apply (G []). exact Hd.
Qed.

Lemma get_items {V V'} (f : V -> V') (k : string) (d : dict V) :
  get k (map (fun item => (fst item, f (snd item))) d) = f <$> get k d.
Proof.
  induction d as [|[k' v'] d IH]; simpl; [reflexivity|].
  destruct (String.eqb k k'); [reflexivity | exact IH].
Qed.

End PyDictMoreFacts.

Module ToolRegistryFacts.

Import PyDict PyDictFacts PyDictMoreFacts ToolRegistry ToolRegistryInv.

Section WithCallable.

Variable Callable : Type.
Variable iscoroutinefunction : Callable -> bool.

Lemma category_eqb_eq (a b : ToolCategory) : category_eqb a b = true <-> a = b.
Proof. destruct a, b; simpl; split; intros H; congruence. Qed.

Lemma consistent_init : consistent (@__init__ Callable).
Proof.
  unfold consistent. simpl.
  repeat split; try constructor; try discriminate.
Qed.

Lemma consistent_register (self : t Callable) (n d : string)
    (c : option ToolCategory) (v : option string) (f : Callable) :
  consistent self ->
  consistent (fst (register Callable iscoroutinefunction self n d c v f)).
Proof.
  intros (Ht & Hc & Hin & Hcat). unfold consistent, register. simpl.
  set (cat := default OTHER c).
  set (tool := Tool__init__ Callable iscoroutinefunction f _).
  split; [apply NoDup_keys_set, Ht|]. split; [|split].
  - intros c'. unfold set_category.
    destruct (category_eqb cat c'); [apply NoDup_keys_set|]; apply Hc.
  - intros n' tool' Hget.
    destruct (String.eqb n n') eqn:E.
    + apply String.eqb_eq in E. subst n'. rewrite get_set_eq in Hget.
      injection Hget as <-. simpl. split; [reflexivity|].
      unfold set_category.
      destruct (category_eqb cat cat) eqn:Ec.
      * apply get_set_eq.
      * exfalso. assert (category_eqb cat cat = true) by (apply category_eqb_eq; reflexivity).
        congruence.
    + apply String.eqb_neq in E. rewrite get_set_ne in Hget by exact E.
      destruct (Hin n' tool' Hget) as [Hname Hidx]. split; [exact Hname|].
      unfold set_category.
      destruct (category_eqb cat (category (metadata tool'))) eqn:Ec; [|exact Hidx].
      apply category_eqb_eq in Ec. rewrite get_set_ne by exact E.
      rewrite Ec. exact Hidx.
  - intros c' n' tool'. unfold set_category.
    destruct (category_eqb cat c') eqn:Ec; [|apply Hcat].
    apply category_eqb_eq in Ec. subst c'.
    destruct (String.eqb n n') eqn:E.
    + apply String.eqb_eq in E. subst n'. rewrite get_set_eq.
      intros [= <-]. simpl. auto.
    + apply String.eqb_neq in E. rewrite get_set_ne by exact E. apply Hcat.
Qed.

(** In a consistent registry [remove_tool] does not raise. *)
Lemma remove_tool_consistent (self : t Callable) (n : string) :
  consistent self ->
  fst (fst (remove_tool self n)) = Ok (mem n (_tools self))
  /\ consistent (snd (fst (remove_tool self n)))
  /\ get n (_tools (snd (fst (remove_tool self n)))) = None
  /\ (forall n', n' <> n ->
        get n' (_tools (snd (fst (remove_tool self n)))) = get n' (_tools self)).
Proof.
  intros (Ht & Hc & Hin & Hcat). unfold remove_tool, mem.
  destruct (get n (_tools self)) as [tool|] eqn:Hget.
  - destruct (Hin n tool Hget) as [Hname Hidx].
    destruct (del_present n tool _ Hget) as [tools' Hdel].
    destruct (del_present n tool _ Hidx) as [d' Hdel'].
    rewrite Hdel, Hdel'. simpl.
    split; [reflexivity|]. split; [|split].
    + unfold consistent. simpl.
      split; [eapply NoDup_keys_del; eauto|]. split; [|split].
      * intros c'. unfold set_category.
        destruct (category_eqb (category (metadata tool)) c');
          [eapply NoDup_keys_del; [apply Hc | exact Hdel'] | apply Hc].
      * intros n' tool' Hget'.
        destruct (String.eqb n n') eqn:E.
        { apply String.eqb_eq in E. subst n'.
          rewrite (get_del_eq n _ _ Ht Hdel) in Hget'. discriminate. }
        apply String.eqb_neq in E.
        rewrite (get_del_ne n n' _ _ E Hdel) in Hget'.
        destruct (Hin n' tool' Hget') as [Hname' Hidx']. split; [exact Hname'|].
        unfold set_category.
        destruct (category_eqb (category (metadata tool)) (category (metadata tool')))
          eqn:Ec; [|exact Hidx'].
        apply category_eqb_eq in Ec.
        rewrite (get_del_ne n n' _ d' E Hdel'). rewrite Ec. exact Hidx'.
      * intros c' n' tool'. unfold set_category.
        destruct (category_eqb (category (metadata tool)) c') eqn:Ec; [|apply Hcat].
        apply category_eqb_eq in Ec. subst c'.
        intros Hget'.
        destruct (String.eqb n n') eqn:E.
        { apply String.eqb_eq in E. subst n'.
          rewrite (get_del_eq n _ _ (Hc _) Hdel') in Hget'. discriminate. }
        apply String.eqb_neq in E.
        rewrite (get_del_ne n n' _ _ E Hdel') in Hget'. apply (Hcat _ _ _ Hget').
    + eapply get_del_eq; eauto.
    + intros n' Hne. eapply get_del_ne; eauto.
  - simpl. split; [reflexivity|].
    split; [exact (conj Ht (conj Hc (conj Hin Hcat)))|].
    split; [exact Hget | reflexivity].
Qed.

Lemma consistent_apply_op (self : t Callable) (o : op Callable) :
  consistent self -> consistent (apply_op Callable iscoroutinefunction self o).
Proof.
  intros H. destruct o; simpl.
  - apply consistent_register, H.
  - apply remove_tool_consistent, H.
  - apply consistent_init.
Qed.

Lemma consistent_run_ops (ops : list (op Callable)) :
  consistent (run_ops Callable iscoroutinefunction ops).
Proof.
  unfold run_ops.
  assert (G : forall self, consistent self ->
                consistent (fold_left (apply_op Callable iscoroutinefunction) ops self)).
  { induction ops as [|o ops IH]; intros self H; simpl; [exact H|].
    apply IH, consistent_apply_op, H. }
  apply G, consistent_init.
Qed.

End WithCallable.

End ToolRegistryFacts.

(** X11. In a registry reached by any calls, [remove_tool] does not
    raise: it answers whether the name was registered; afterwards the
    name is not registered and not in the listing of all tools, and
    every other name is registered as before. *)
Theorem remove_tool_never_raises
    {Callable : Type} (iscoroutinefunction : Callable -> bool)
    (ops : list (ToolRegistry.op Callable)) (n : string) :
  let registry := ToolRegistry.run_ops Callable iscoroutinefunction ops in
  let after := snd (fst (ToolRegistry.remove_tool registry n)) in
  fst (fst (ToolRegistry.remove_tool registry n))
  = Ok (PyDict.mem n (ToolRegistry._tools registry))
  /\ ToolRegistry.get_tool after n = None
  /\ PyDict.get n (ToolRegistry.list_tools after None) = None
  /\ forall n', n' <> n ->
       ToolRegistry.get_tool after n' = ToolRegistry.get_tool registry n'.
Proof.
  intros registry after.
  pose proof (ToolRegistryFacts.consistent_run_ops Callable iscoroutinefunction ops)
    as Hcons.
  destruct (ToolRegistryFacts.remove_tool_consistent Callable registry n Hcons)
    as (Hres & Hcons' & Hgone & Hothers).
  fold after in Hcons', Hgone, Hothers.
  split; [exact Hres|]. split; [exact Hgone|]. split; [|exact Hothers].
  unfold ToolRegistry.list_tools.
  rewrite PyDictMoreFacts.comprehension_items by apply Hcons'.
  rewrite PyDictMoreFacts.get_items, Hgone. reflexivity.
Qed.

(** X12. In a registry reached by any calls, a tool registered under a
    name carries that name in its metadata, and the name is listed with
    that metadata both among all tools and under the tool's category. *)
Theorem registered_tools_are_listed
    {Callable : Type} (iscoroutinefunction : Callable -> bool)
    (ops : list (ToolRegistry.op Callable)) (n : string)
    (tool : ToolRegistry.Tool Callable) :
  let registry := ToolRegistry.run_ops Callable iscoroutinefunction ops in
  ToolRegistry.get_tool registry n = Some tool ->
  ToolRegistry.name (ToolRegistry.metadata tool) = n
  /\ PyDict.get n (ToolRegistry.list_tools registry None)
     = Some (ToolRegistry.metadata tool)
  /\ PyDict.get n (ToolRegistry.list_tools registry
                     (Some (ToolRegistry.category (ToolRegistry.metadata tool))))
     = Some (ToolRegistry.metadata tool).
Proof.
  intros registry Hget.
  pose proof (ToolRegistryFacts.consistent_run_ops Callable iscoroutinefunction ops)
    as (Ht & Hc & Hin & Hcat).
  fold registry in Ht, Hc, Hin, Hcat.
  destruct (Hin n tool Hget) as [Hname Hidx].
  split; [exact Hname|]. unfold ToolRegistry.list_tools.
  rewrite !PyDictMoreFacts.comprehension_items by auto.
  rewrite !PyDictMoreFacts.get_items.
  unfold ToolRegistry.get_tool in Hget. rewrite Hget, Hidx. auto.
Qed.

Lemma registered_tools_are_listed_witness :
  let tool :=
    ToolRegistry.mk_tool false
      (ToolRegistry.mk_metadata "search" "vector search" ToolRegistry.SEARCH
         false "1.0.0") false in
  ToolRegistry.name (ToolRegistry.metadata tool) = "search"%string
  /\ PyDict.get "search" (ToolRegistry.list_tools MoreSamples.registry None)
     = Some (ToolRegistry.metadata tool)
  /\ PyDict.get "search"
       (ToolRegistry.list_tools MoreSamples.registry
          (Some (ToolRegistry.category (ToolRegistry.metadata tool))))
     = Some (ToolRegistry.metadata tool).
Proof.
  intros tool.
  apply (registered_tools_are_listed (fun coroutine : bool => coroutine)
           MoreSamples.registry_calls "search" tool).
  vm_compute. reflexivity.
Defined.

(** X13. In a registry reached by any calls, every entry of the listing
    of a category carries that category, and carries as its name the
    key it is listed under. *)
Theorem category_listing_is_faithful
    {Callable : Type} (iscoroutinefunction : Callable -> bool)
    (ops : list (ToolRegistry.op Callable))
    (c : ToolRegistry.ToolCategory) (n : string)
    (m : ToolRegistry.ToolMetadata) :
  PyDict.get n
    (ToolRegistry.list_tools
       (ToolRegistry.run_ops Callable iscoroutinefunction ops) (Some c))
  = Some m ->
  ToolRegistry.category m = c /\ ToolRegistry.name m = n.
Proof.
  pose proof (ToolRegistryFacts.consistent_run_ops Callable iscoroutinefunction ops)
    as (Ht & Hc & Hin & Hcat).
  unfold ToolRegistry.list_tools.
  rewrite PyDictMoreFacts.comprehension_items by auto.
  rewrite PyDictMoreFacts.get_items.
  destruct (PyDict.get n _) as [tool|] eqn:E; [|discriminate].
  simpl. intros [= <-]. apply (Hcat c n tool E).
Qed.

Lemma category_listing_is_faithful_witness :
  ToolRegistry.category
    (ToolRegistry.mk_metadata "search" "vector search" ToolRegistry.SEARCH
       false "1.0.0") = ToolRegistry.SEARCH
  /\ ToolRegistry.name
       (ToolRegistry.mk_metadata "search" "vector search" ToolRegistry.SEARCH
          false "1.0.0") = "search"%string.
Proof.
  apply (category_listing_is_faithful (fun coroutine : bool => coroutine)
           MoreSamples.registry_calls ToolRegistry.SEARCH "search").
  vm_compute. reflexivity.
Defined.

(** X14. Registering a function under a name makes [get_tool] return,
    for that name, the function with the metadata given (category
    [OTHER] and version "1.0.0" when left out, [async_support] and
    [is_async] as [inspect.iscoroutinefunction] says), whatever was
    registered under the name before; [get_tool] for any other name is
    as before. *)
Theorem register_then_get_tool
    {Callable : Type} (iscoroutinefunction : Callable -> bool)
    (self : ToolRegistry.t Callable) (n description : string)
    (category : option ToolRegistry.ToolCategory) (version : option string)
    (func : Callable) :
  let after :=
    fst (ToolRegistry.register Callable iscoroutinefunction self n description
           category version func) in
  ToolRegistry.get_tool after n
  = Some (ToolRegistry.mk_tool func
            (ToolRegistry.mk_metadata n description
               (default ToolRegistry.OTHER category)
               (iscoroutinefunction func) (default "1.0.0"%string version))
            (iscoroutinefunction func))
  /\ forall n', n <> n' ->
       ToolRegistry.get_tool after n' = ToolRegistry.get_tool self n'.
Proof.
  intros after. subst after. unfold ToolRegistry.get_tool, ToolRegistry.register.
  simpl. split.
  - apply PyDictMoreFacts.get_set_eq.
  - intros n' Hne. apply PyDictMoreFacts.get_set_ne, Hne.
Qed.

(** ** The language-model tool *)

Module OllamaFacts.

Import OllamaTool PyStrFacts.

Lemma slice_to_take {A} (s : list A) (b : Z) :
  slice_to s b = take (Z.to_nat (slice_index (len s) b)) s.
Proof.
  unfold slice_to, slice.
  change (Z.to_nat (slice_index (len s) 0)) with (Z.to_nat (Z.min 0 (len s))).
  replace (Z.to_nat (Z.min 0 (len s))) with 0%nat by (unfold len; lia).
  apply drop_0.
Qed.

Lemma len_slice_to {A} (s : list A) (b : Z) :
  0 <= b -> len (slice_to s b) = Z.min b (len s).
Proof.
  intros Hb. rewrite slice_to_take. unfold slice_index, len.
  destruct (b <? 0) eqn:E; [lia|]. rewrite length_take. lia.
Qed.

(** [rfind] finds an occurrence. *)
Lemma rfind_from_found (c : ascii) (s : str) (i : Z) :
  0 <= i -> rfind_from c i s <> -1 ->
  s !! Z.to_nat (rfind_from c i s - i) = Some c.
Proof.
  revert i. induction s as [|x s IH]; intros i Hi; simpl; [congruence|].
  destruct (rfind_from c (i + 1) s =? -1) eqn:E.
  - destruct (Ascii.eqb x c) eqn:Ex; [|congruence].
    intros _. apply Ascii.eqb_eq in Ex. subst x.
    replace (i - i) with 0 by lia. reflexivity.
  - intros _.
    assert (Hne : rfind_from c (i + 1) s <> -1) by lia.
    specialize (IH (i + 1) ltac:(lia) Hne).
    destruct (rfind_from_range c s (i + 1)) as [H|H]; [lia | lia |].
    replace (Z.to_nat (rfind_from c (i + 1) s - i))
      with (S (Z.to_nat (rfind_from c (i + 1) s - (i + 1)))) by lia.
    exact IH.
Qed.

Lemma rfind_found (c : ascii) (s : str) :
  rfind c s <> -1 -> s !! Z.to_nat (rfind c s) = Some c.
Proof.
  intros H. pose proof (rfind_from_found c s 0 ltac:(lia) H) as Hf.
  unfold rfind. replace (rfind_from c 0 s - 0) with (rfind_from c 0 s) in Hf by lia.
  exact Hf.
Qed.

Lemma last_take_S {A} (l : list A) (n : nat) (x : A) :
  l !! n = Some x -> last (take (S n) l) = Some x.
Proof.
  intros H. rewrite last_lookup.
  assert (Hlt : (n < length l)%nat) by (eapply lookup_lt_Some; eauto).
  rewrite length_take. replace (Init.Nat.pred (S n `min` length l)) with n by lia.
  rewrite lookup_take_lt by lia. exact H.
Qed.

(** The three outcomes of [_smart_truncate]. *)
Lemma smart_truncate_cases (text : str) (m : Z) :
  (len text <= m /\ _smart_truncate text m = text)
  \/ (m < len text /\ rfind period (slice_to text m) = -1
      /\ _smart_truncate text m = slice_to text m)
  \/ (m < len text /\ rfind period (slice_to text m) <> -1
      /\ _smart_truncate text m
         = slice_to (slice_to text m) (rfind period (slice_to text m) + 1)).
Proof.
  unfold _smart_truncate.
  destruct (len text <=? m) eqn:E; [left; split; [lia | reflexivity]|].
  right. destruct (rfind period (slice_to text m) =? -1) eqn:Ep; simpl.
  - left. repeat split; lia.
  - right. repeat split; lia.
Qed.

Lemma smart_truncate_length (text : str) (m : Z) :
  0 <= m -> len (_smart_truncate text m) <= m.
Proof.
  intros Hm.
  destruct (smart_truncate_cases text m) as [[H ->]|[(H & _ & ->)|(H & Hp & ->)]].
  - exact H.
  - rewrite len_slice_to by exact Hm. lia.
  - destruct (rfind_range period (slice_to text m)) as [Hr|Hr]; [congruence|].
    rewrite len_slice_to by lia. rewrite len_slice_to in * by exact Hm. lia.
Qed.

Lemma smart_truncate_prefix (text : str) (m : Z) :
  exists rest, text = _smart_truncate text m ++ rest.
Proof.
  destruct (smart_truncate_cases text m) as [[H ->]|[(H & _ & ->)|(H & Hp & ->)]].
  - exists []. rewrite app_nil_r. reflexivity.
  - rewrite slice_to_take. eexists. symmetry. apply take_drop.
  - rewrite (slice_to_take (slice_to text m)), (slice_to_take text), take_take.
    eexists. symmetry. apply take_drop.
Qed.

End OllamaFacts.

(** X15. For a limit that is not negative, [_smart_truncate] returns a
    prefix of the text that is no longer than the limit. *)
Theorem smart_truncate_bounded_prefix (text : str) (max_length : Z) :
  0 <= max_length ->
  len (OllamaTool._smart_truncate text max_length) <= max_length
  /\ exists rest, text = OllamaTool._smart_truncate text max_length ++ rest.
Proof.
  intros Hm. split.
  - apply OllamaFacts.smart_truncate_length, Hm.
  - apply OllamaFacts.smart_truncate_prefix.
Qed.

Lemma smart_truncate_bounded_prefix_witness :
  len (OllamaTool._smart_truncate Samples.parking_text 60) <= 60
  /\ exists rest,
       Samples.parking_text
       = OllamaTool._smart_truncate Samples.parking_text 60 ++ rest.
Proof.
  apply (smart_truncate_bounded_prefix Samples.parking_text 60). lia.
Defined.

(** X16. For a limit that is not negative, truncating a truncated text
    again changes nothing. *)
Theorem smart_truncate_idempotent (text : str) (max_length : Z) :
  0 <= max_length ->
  OllamaTool._smart_truncate (OllamaTool._smart_truncate text max_length)
                             max_length
  = OllamaTool._smart_truncate text max_length.
Proof.
  intros Hm. pose proof (OllamaFacts.smart_truncate_length text max_length Hm) as Hlen.
  unfold OllamaTool._smart_truncate at 1.
  destruct (len (OllamaTool._smart_truncate text max_length) <=? max_length) eqn:E;
    [reflexivity | lia].
Qed.

Lemma smart_truncate_idempotent_witness :
  OllamaTool._smart_truncate (OllamaTool._smart_truncate Samples.parking_text 60) 60
  = OllamaTool._smart_truncate Samples.parking_text 60.
Proof.
  apply (smart_truncate_idempotent Samples.parking_text 60). lia.
Defined.

(** X17. When the text is longer than the limit and its first
    [max_length] characters hold a period, the text returned ends with
    a period; when they hold none, it is exactly those characters. *)
Theorem smart_truncate_ends_sentence (text : str) (max_length : Z) :
  0 <= max_length < len text ->
  (rfind period (slice_to text max_length) <> -1 ->
   last (OllamaTool._smart_truncate text max_length) = Some period)
  /\ (rfind period (slice_to text max_length) = -1 ->
      OllamaTool._smart_truncate text max_length = slice_to text max_length).
Proof.
  intros [Hm Hlt].
  destruct (OllamaFacts.smart_truncate_cases text max_length)
    as [[H _]|[(_ & Hp & ->)|(_ & Hp & ->)]]; [lia | |].
  - split; [congruence | reflexivity].
  - split; [|congruence]. intros _.
    destruct (PyStrFacts.rfind_range period (slice_to text max_length))
      as [Hr|Hr]; [congruence|].
    rewrite (OllamaFacts.slice_to_take (slice_to text max_length)).
    unfold slice_index.
    destruct (rfind period (slice_to text max_length) + 1 <? 0) eqn:E; [lia|].
    replace (Z.to_nat (Z.min (rfind period (slice_to text max_length) + 1)
                             (len (slice_to text max_length))))
      with (S (Z.to_nat (rfind period (slice_to text max_length)))) by lia.
    apply OllamaFacts.last_take_S, OllamaFacts.rfind_found, Hp.
Qed.

Lemma smart_truncate_ends_sentence_witness :
  (rfind period (slice_to Samples.parking_text 60) <> -1 ->
   last (OllamaTool._smart_truncate Samples.parking_text 60) = Some period)
  /\ (rfind period (slice_to Samples.parking_text 60) = -1 ->
      OllamaTool._smart_truncate Samples.parking_text 60
      = slice_to Samples.parking_text 60).
Proof.
  apply (smart_truncate_ends_sentence Samples.parking_text 60).
  vm_compute. split; [discriminate | reflexivity].
Defined.

Module RankingFacts.

Import OllamaTool.

Section Sorting.

Context {A : Type} (key : A -> Z).

Lemma insert_desc_perm (x : A) (l : list A) : insert_desc key x l ≡ₚ x :: l.
Proof.
  induction l as [|y l IH]; simpl; [reflexivity|].
  destruct (key x <? key y); [|reflexivity].
  rewrite IH. apply Permutation_swap.
Qed.

Lemma sorted_desc_perm (l : list A) : sorted_desc key l ≡ₚ l.
Proof.
  induction l as [|x l IH]; simpl; [reflexivity|].
  rewrite insert_desc_perm, IH. reflexivity.
Qed.

Lemma insert_desc_sorted (x : A) (l : list A) :
  StronglySorted (fun a b => key b <= key a) l ->
  StronglySorted (fun a b => key b <= key a) (insert_desc key x l).
Proof.
  induction l as [|y l IH]; intros Hs; simpl.
  - repeat constructor.
  - inversion Hs as [|? ? Hs' Hall]; subst.
    destruct (key x <? key y) eqn:E.
    + constructor; [apply IH, Hs'|].
      rewrite insert_desc_perm. constructor; [lia | exact Hall].
    + constructor; [exact Hs|].
      constructor; [lia|].
      eapply Forall_impl; [exact Hall|]. simpl. intros z Hz. lia.
Qed.

Lemma sorted_desc_sorted (l : list A) :
  StronglySorted (fun a b => key b <= key a) (sorted_desc key l).
Proof.
  induction l as [|x l IH]; simpl; [constructor | apply insert_desc_sorted, IH].
Qed.

(** The sort is stable: elements of equal key keep their order. *)
Lemma insert_desc_stable (k : Z) (x : A) (l : list A) :
  List.filter (fun a => key a =? k) (insert_desc key x l)
  = List.filter (fun a => key a =? k) (x :: l).
Proof.
  induction l as [|y l IH]; [reflexivity|].
  cbn [insert_desc]. destruct (key x <? key y) eqn:E; [|reflexivity].
  cbn [List.filter] in *. rewrite IH.
  destruct (key x =? k) eqn:Ex; destruct (key y =? k) eqn:Ey;
    try reflexivity; lia.
Qed.

Lemma sorted_desc_stable (k : Z) (l : list A) :
  List.filter (fun a => key a =? k) (sorted_desc key l)
  = List.filter (fun a => key a =? k) l.
Proof.
  induction l as [|x l IH]; [reflexivity|].
  cbn [sorted_desc]. rewrite insert_desc_stable. cbn [List.filter].
  rewrite IH. reflexivity.
Qed.

End Sorting.

Lemma ranked_scores (history : list turn) (query : str) :
  Forall (fun p => snd p = score query (fst p)) (ranked history query).
Proof.
  unfold ranked. rewrite sorted_desc_perm. apply Forall_map, Forall_true.
  reflexivity.
Qed.

Lemma ranked_items (history : list turn) (query : str) :
  map fst (ranked history query) ≡ₚ history.
Proof.
  unfold ranked. rewrite sorted_desc_perm, map_map. simpl.
  rewrite map_id. reflexivity.
Qed.

Lemma relevant_history_take (history : list turn) (query : str)
    (max_items : option Z) :
  _get_relevant_history history query max_items
  = map fst (take (Z.to_nat (slice_index (len history) (default 3 max_items)))
                  (ranked history query)).
Proof.
  unfold _get_relevant_history. destruct history as [|t history].
  - unfold ranked. simpl. rewrite take_nil. reflexivity.
  - rewrite OllamaFacts.slice_to_take. fold (ranked (t :: history) query).
    do 3 f_equal. unfold len, ranked.
    rewrite (Permutation_length (sorted_desc_perm snd _)), length_map.
    reflexivity.
Qed.

End RankingFacts.

Module RankingMoreFacts.

Import OllamaTool RankingFacts.

Lemma StronglySorted_map_fst (query : str) (l : list (turn * Z)) :
  Forall (fun p => snd p = score query (fst p)) l ->
  StronglySorted (fun a b => snd b <= snd a) l ->
  StronglySorted (fun a b => score query b <= score query a) (map fst l).
Proof.
  intros Hsc Hs. induction Hs as [|p l Hs IH Hall]; simpl; [constructor|].
  inversion Hsc as [|? ? Hp Hsc']; subst.
  constructor; [apply IH, Hsc'|].
  apply Forall_map. rewrite Forall_forall in Hall, Hsc' |- *.
  intros q Hq. specialize (Hall q Hq). specialize (Hsc' q Hq). simpl. lia.
Qed.

Lemma filter_ext_Forall {A} (f g : A -> bool) (l : list A) :
  Forall (fun x => f x = g x) l -> List.filter f l = List.filter g l.
Proof.
  induction 1 as [|x l Hx _ IH]; simpl; [reflexivity|].
  rewrite Hx, IH. reflexivity.
Qed.

Lemma filter_map_fst {A B} (P : A -> bool) (l : list (A * B)) :
  List.filter P (map fst l) = map fst (List.filter (fun p => P (fst p)) l).
Proof.
  induction l as [|p l IH]; simpl; [reflexivity|].
  destruct (P (fst p)); simpl; rewrite IH; reflexivity.
Qed.

End RankingMoreFacts.

(** X18. [_get_relevant_history] returns the items of the history that
    score highest: together with the items it leaves out they are the
    history, in an order of scores that never rises, so that no item
    left out scores above an item returned; and for [max_items] that is
    not negative it returns [max_items] items, or the whole history when
    that is shorter. *)
Theorem relevant_history_selects_top
    (history : list OllamaTool.turn) (query : str) (max_items : option Z) :
  exists rest,
    OllamaTool._get_relevant_history history query max_items ++ rest ≡ₚ history
    /\ StronglySorted
         (fun a b => OllamaTool.score query b <= OllamaTool.score query a)
         (OllamaTool._get_relevant_history history query max_items ++ rest)
    /\ (0 <= default 3 max_items ->
        len (OllamaTool._get_relevant_history history query max_items)
        = Z.min (default 3 max_items) (len history)).
Proof.
  rewrite RankingFacts.relevant_history_take.
  set (n := Z.to_nat (slice_index (len history) (default 3 max_items))).
  exists (map fst (drop n (OllamaTool.ranked history query))).
  rewrite <- map_app, take_drop. split; [apply RankingFacts.ranked_items|].
  split.
  - apply RankingMoreFacts.StronglySorted_map_fst;
      [apply RankingFacts.ranked_scores|].
    apply RankingFacts.sorted_desc_sorted.
  - intros Hmax. unfold len. rewrite length_map, length_take.
    unfold OllamaTool.ranked.
    rewrite (Permutation_length (RankingFacts.sorted_desc_perm snd _)), length_map.
    subst n. unfold slice_index, len.
    destruct (default 3 max_items <? 0) eqn:E; lia.
Qed.

(** X19. Among items of equal score [_get_relevant_history] keeps the
    order of the history: the items it returns with a given score are
    the first items of the history with that score. *)
Theorem relevant_history_is_stable
    (history : list OllamaTool.turn) (query : str) (max_items : option Z)
    (k : Z) :
  exists later,
    List.filter (fun item => OllamaTool.score query item =? k) history
    = List.filter (fun item => OllamaTool.score query item =? k)
        (OllamaTool._get_relevant_history history query max_items)
      ++ later.
Proof.
  rewrite RankingFacts.relevant_history_take.
  set (n := Z.to_nat (slice_index (len history) (default 3 max_items))).
  set (P := fun item => OllamaTool.score query item =? k).
  exists (List.filter P (map fst (drop n (OllamaTool.ranked history query)))).
  rewrite <- List.filter_app, <- map_app, take_drop.
  rewrite RankingMoreFacts.filter_map_fst.
  rewrite (RankingMoreFacts.filter_ext_Forall _ (fun p => snd p =? k)).
  - unfold OllamaTool.ranked. rewrite RankingFacts.sorted_desc_stable.
    rewrite <- (RankingMoreFacts.filter_ext_Forall (fun p => P (fst p))).
    + rewrite <- RankingMoreFacts.filter_map_fst, map_map. simpl.
      rewrite map_id. reflexivity.
    + apply Forall_map, Forall_true. reflexivity.
  - eapply Forall_impl; [apply RankingFacts.ranked_scores|].
    intros p Hp. subst P. simpl. rewrite Hp. reflexivity.
Qed.

(** X20. However often [_get_client] is called, every call hands out
    the first client of the pool, and the pool holds one client if it
    was empty and is unchanged otherwise. *)
Theorem client_pool_never_rotates (n : nat) (p : OllamaTool.pool) :
  let clients := fst (OllamaTool.get_clients n p) in
  let after := snd (OllamaTool.get_clients n p) in
  Forall (fun c => Some c = head (OllamaTool._client_pool after)) clients
  /\ OllamaTool._client_pool after
     = match OllamaTool._client_pool p, n with
       | [], S _ => [OllamaTool.next_client p]
       | pool, _ => pool
       end.
Proof.
  revert p. induction n as [|n IH]; intros p; simpl.
  - split; [constructor|]. destruct (OllamaTool._client_pool p); reflexivity.
  - unfold OllamaTool._get_client.
    destruct (OllamaTool._client_pool p) as [|c pool] eqn:Hp.
    + specialize (IH (OllamaTool.mk_pool ([] ++ [OllamaTool.next_client p])
                        (S (OllamaTool.next_client p)))).
      destruct (OllamaTool.get_clients n _) as [cs p''] eqn:Hn.
      simpl in *. destruct IH as [Hall Hpool].
      assert (Hp'' : OllamaTool._client_pool p'' = [OllamaTool.next_client p])
        by (rewrite Hpool; destruct n; reflexivity).
      split; [|exact Hp''].
      constructor; [rewrite Hp''; reflexivity | exact Hall].
    + specialize (IH p).
      destruct (OllamaTool.get_clients n p) as [cs p''] eqn:Hn.
      simpl in *. rewrite Hp in IH. destruct IH as [Hall Hpool].
      assert (Hp'' : OllamaTool._client_pool p'' = c :: pool)
        by (rewrite Hpool; destruct n; reflexivity).
      split; [|exact Hp''].
      constructor; [rewrite Hp''; reflexivity | exact Hall].
Qed.

(** X21. The prompt built by [_build_context] is, in this order: the
    previous conversation followed by a blank line, when there is
    history; the reference information followed by a blank line, when
    there is a context that is not empty; and the current question.  A
    section that is left out leaves no blank line behind. *)
Theorem build_context_sections
    (prompt : str) (context : option str)
    (relevant_history : list OllamaTool.turn) :
  OllamaTool._build_context prompt context relevant_history
  = match relevant_history with
    | [] => []
    | _ :: _ =>
        lit "Previous conversation:" ++ [newline]
        ++ join [newline] (map OllamaTool.render_turn relevant_history)
        ++ [newline; newline]
    end
    ++ match context with
       | Some (c :: context') =>
           lit "Reference information:" ++ [newline] ++ c :: context'
           ++ [newline; newline]
       | _ => []
       end
    ++ lit "Current question: " ++ prompt.
Proof.
  unfold OllamaTool._build_context.
  destruct relevant_history as [|t h]; destruct context as [[|c context']|];
    cbn [app join]; rewrite <- ?app_assoc; cbn [app]; try reflexivity;
    repeat (rewrite <- !app_assoc; cbn [app]); reflexivity.
Qed.

(** X22. A context longer than 2000 characters reaches the language
    model cut by [_smart_truncate]: [generate_response] does with a
    context what it does with that context truncated to 2000
    characters. *)
Theorem generate_response_truncates_context
    (generate : nat -> str -> result str) (self : OllamaTool.t)
    (prompt context : str) :
  OllamaTool.generate_response generate self prompt (Some context)
  = OllamaTool.generate_response generate self prompt
      (Some (OllamaTool._smart_truncate context OllamaTool.max_context_length)).
Proof.
  pose proof (OllamaFacts.smart_truncate_length context
                OllamaTool.max_context_length ltac:(unfold OllamaTool.max_context_length; lia))
    as Hlen.
  unfold OllamaTool.generate_response.
  destruct context as [|c context'].
  - reflexivity.
  - destruct (len (c :: context') >? OllamaTool.max_context_length) eqn:E.
    + destruct (OllamaTool._smart_truncate (c :: context')
                  OllamaTool.max_context_length) as [|c2 s2] eqn:Ht;
        [reflexivity|].
      destruct (len (c2 :: s2) >? OllamaTool.max_context_length) eqn:E2;
        [lia | reflexivity].
    + assert (Hid : OllamaTool._smart_truncate (c :: context')
                      OllamaTool.max_context_length = c :: context').
      { unfold OllamaTool._smart_truncate.
        destruct (len (c :: context') <=? OllamaTool.max_context_length) eqn:E';
          [reflexivity | lia]. }
      rewrite Hid, E. reflexivity.
Qed.

(** ** More on the response formatter *)

Module FormatterFacts.

Import ResponseFormatterTool Substring StripFacts.


(** The pieces of a split hold no separator, the first is a prefix of
    the string, and all occur in it. *)
Lemma split_char_spec (c : ascii) (s : str) :
  exists first rest,
    split_char c s = first :: rest
    /\ (exists after, s = first ++ after)
    /\ Forall (fun piece => substring piece s /\ ~ In c piece) (first :: rest).
Proof.
  induction s as [|x s IH]; simpl.
  - exists [], []. split; [reflexivity|]. split; [exists []; reflexivity|].
    constructor; [|constructor]. split; [apply substring_refl | intros []].
  - destruct IH as (first & rest & Hsplit & (after & Hafter) & Hall).
    assert (Hlift : forall piece, substring piece s -> substring piece (x :: s)).
    { intros piece (b & a & ->). exists (x :: b), a. reflexivity. }
    destruct (Ascii.eqb x c) eqn:E.
    + exists [], (split_char c s). split; [reflexivity|].
      split; [exists (x :: s); reflexivity|].
      constructor; [split; [exists [], (x :: s); reflexivity | intros []]|].
      rewrite Hsplit. eapply Forall_impl; [exact Hall|].
      simpl. intros piece [Hsub Hnot]. split; [apply Hlift, Hsub | exact Hnot].
    + rewrite Hsplit. exists (x :: first), rest. split; [reflexivity|].
      split; [exists after; rewrite Hafter; reflexivity|].
      inversion Hall as [|? ? [Hsub Hnot] Hrest]; subst.
      constructor.
      * split; [exists [], after; reflexivity|].
        intros [Hx|Hin]; [|exact (Hnot Hin)].
        subst x. rewrite Ascii.eqb_refl in E. discriminate.
      * eapply Forall_impl; [exact Hrest|].
        simpl. intros piece [Hsub' Hnot']. split; [apply Hlift, Hsub' | exact Hnot'].
Qed.

Lemma In_slice {A} (l : list A) (a b : Z) (x : A) : In x (slice l a b) -> In x l.
Proof.
  unfold slice.
  set (lo := Z.to_nat (slice_index (len l) a)).
  set (hi := Z.to_nat (slice_index (len l) b)).
  intros H. rewrite <- (take_drop hi l). apply in_or_app. left.
  rewrite <- (take_drop lo (take hi l)). apply in_or_app. right. exact H.
Qed.

Lemma strip_no_separator (c : ascii) (s : str) : ~ In c s -> ~ In c (strip s).
Proof.
  intros Hnot Hin. apply Hnot.
  destruct (strip_substring s) as (b & a & Hs). rewrite Hs.
  apply in_or_app. right. apply in_or_app. left. exact Hin.
Qed.

End FormatterFacts.


(** X24. The text returned by [_extract_section] is made of at most
    five pieces joined by a period and a space, and ended by a period;
    every piece is a run of characters of the text that holds no period,
    is not empty, and neither begins nor ends with whitespace. *)
Theorem extract_section_pieces (text query : str) :
  exists pieces,
    ResponseFormatterTool._extract_section text query
    = join (lit ". ") pieces ++ lit "."
    /\ (length pieces <= 5)%nat
    /\ Forall (fun piece => Substring.substring piece text
                            /\ ~ In period piece
                            /\ piece <> []
                            /\ Substring.trimmed piece) pieces.
Proof.
  unfold ResponseFormatterTool._extract_section.
  set (sentences := split_char period text).
  set (start_idx := ResponseFormatterTool.find_start query 0 sentences).
  set (window := slice sentences start_idx
                   (start_idx + ResponseFormatterTool.window_size)).
  exists (map strip (filter (fun s => strip s <> []) window)).
  split; [reflexivity|]. split.
  - rewrite length_map.
    pose proof (length_filter (fun s => strip s <> []) window) as Hf.
    pose proof (PyStrFacts.len_slice_le sentences start_idx
                  (start_idx + ResponseFormatterTool.window_size)) as Hw.
    fold window in Hw. unfold len, ResponseFormatterTool.window_size in Hw. lia.
  - apply Forall_map. apply List.Forall_forall. intros s Hs.
    apply list_elem_of_In in Hs. apply list_elem_of_filter in Hs.
    destruct Hs as [Hne Hin]. apply list_elem_of_In in Hin.
    apply FormatterFacts.In_slice in Hin.
    destruct (FormatterFacts.split_char_spec period text)
      as (first & rest & Hsplit & _ & Hall).
    fold sentences in Hsplit. rewrite Hsplit in Hin.
    rewrite List.Forall_forall in Hall. destruct (Hall s Hin) as [Hsub Hnot].
    simpl. split; [|split; [|split]].
    + eapply StripFacts.substring_trans; [apply StripFacts.strip_substring | exact Hsub].
    + apply FormatterFacts.strip_no_separator, Hnot.
    + exact Hne.
    + apply StripFacts.strip_trimmed.
Qed.

Module TemplateFacts.

Import ResponseTemplates.

Lemma classify_from_labels (query_lower : str) :
  In (classify_from query_lower classifiers)
     ["greeting"; "farewell"; "help"; "problem"; "information"]%string.
Proof.
  unfold classifiers. simpl.
  repeat match goal with
         | |- context [if ?b then _ else _] => destruct b
         end; simpl; tauto.
Qed.

End TemplateFacts.

(** X25. Whatever the query, the response formatted for its class is
    the content behind the greeting, before the farewell, or behind
    "Here's what you need to know: ": the classes [help] and [problem]
    have no template and get the one of [information], and the
    templates of [error], [instruction] and [confirmation] are never
    chosen. *)
Theorem formatted_response_templates (query content : str) :
  let response :=
    ResponseTemplates._format_response content
      (ResponseTemplates._classify_query query) in
  response = lit "Hello! " ++ content
  \/ response = content ++ lit " Feel free to return if you need help!"
  \/ response = lit "Here's what you need to know: " ++ content.
Proof.
  intros response. subst response. unfold ResponseTemplates._classify_query.
  pose proof (TemplateFacts.classify_from_labels (lower query)) as Hlabel.
  destruct Hlabel as [H|[H|[H|[H|[H|[]]]]]]; rewrite <- H; vm_compute; auto.
Qed.

(** ** More on documents and requests *)

Module MiscFacts.

Lemma append_inj_l (s a b : string) : s +:+ a = s +:+ b -> a = b.
Proof.
  induction s as [|c s IH]; simpl; [auto|].
  intros [= H]. apply IH, H.
Qed.

(** A string that is trimmed is left alone by [strip]. *)
Lemma lstrip_id (s : str) :
  (forall c, head s = Some c -> is_space c = false) -> lstrip s = s.
Proof.
  destruct s as [|c s]; intros H; simpl; [reflexivity|].
  rewrite (H c eq_refl). reflexivity.
Qed.

Lemma strip_id (s : str) : Substring.trimmed s -> strip s = s.
Proof.
  intros [Hh Hl]. unfold strip, rstrip. rewrite (lstrip_id s Hh).
  rewrite lstrip_id; [apply rev_involutive|].
  intros c Hc. apply Hl. rewrite <- (rev_involutive s).
  rewrite StripFacts.last_rev_head. exact Hc.
Qed.

Lemma serve_keeps (reqs : list (string * Q)) (self : RateLimiter.t) (c : string) :
  is_Some (RateLimiter.requests self !! c) ->
  is_Some (RateLimiter.requests (snd (RateLimiterRuns.serve self reqs)) !! c).
Proof.
  revert self. induction reqs as [|[c0 t0] rest IH]; intros self Hc; simpl;
    [exact Hc|].
  assert (Hc' : is_Some (RateLimiter.requests
                           (snd (RateLimiter.check self c0 t0)) !! c)).
  { destruct (RateLimiterRunFacts.check_cases self c0 t0)
      as [(_ & _ & ->)|(_ & _ & ->)]; [|exact Hc].
    destruct (decide (c0 = c)) as [->|Hne].
    - rewrite lookup_insert_eq. eauto.
    - rewrite lookup_insert_ne by exact Hne. exact Hc. }
  destruct (RateLimiter.check self c0 t0) as [b self'].
  specialize (IH self' Hc').
  destruct (RateLimiterRuns.serve self' rest) as [answers self'']. exact IH.
Qed.

End MiscFacts.

(** X26. The contexts made by [to_mcp_context] from the documents that
    one [process] call returns have pairwise distinct [context_id]s. *)
Theorem context_ids_are_distinct
    (fuel : nat) (self : PDFProcessor.t) (file : PDFDocuments.PdfFile)
    (docs : list PDFDocuments.Document) (i j : nat)
    (d d' : PDFDocuments.Document) :
  PDFDocuments.process fuel self file = Some (Some docs) ->
  docs !! i = Some d -> docs !! j = Some d' -> i <> j ->
  PDFDocuments.context_id (PDFDocuments.to_mcp_context d)
  <> PDFDocuments.context_id (PDFDocuments.to_mcp_context d').
Proof.
  unfold PDFDocuments.process.
  destruct (strip _); [discriminate|].
  destruct (PDFProcessor._chunk_text fuel self _) as [chunks|]; [|discriminate].
  simpl. intros [= <-] Hd Hd' Hij.
  apply PDFDocumentsFacts.documents_from_lookup in Hd, Hd'.
  destruct Hd as (_ & Hi & _ & Hs & _). destruct Hd' as (_ & Hj & _ & Hs' & _).
  unfold PDFDocuments.to_mcp_context. simpl. rewrite Hi, Hj, Hs, Hs'.
  intros Heq. apply MiscFacts.append_inj_l, MiscFacts.append_inj_l in Heq.
  apply pretty_Z_inj in Heq. lia.
Qed.

Lemma context_ids_are_distinct_witness :
  "report.pdf:0"%string <> "report.pdf:1"%string.
Proof.
  pose proof (context_ids_are_distinct 4 (PDFProcessor.mk 16 2)
                MoreSamples.report
                (PDFDocuments.documents_from MoreSamples.report 4 0
                   [lit "Alpha beta."; lit "a. Gamma delta.";
                    lit "a. Epsilon zeta."; lit "a. Eta theta."])
                0%nat 1%nat
                (PDFDocuments.mk_document "files_data/report.pdf" (lit "Alpha beta.")
                   (PDFDocuments.mk_metadata "report.pdf" "pdf" 0 4 "2" 2048 (17 # 1)%Q))
                (PDFDocuments.mk_document "files_data/report.pdf" (lit "a. Gamma delta.")
                   (PDFDocuments.mk_metadata "report.pdf" "pdf" 1 4 "2" 2048 (17 # 1)%Q)))
    as H.
  apply H; [vm_compute; reflexivity | reflexivity | reflexivity | discriminate].
Defined.

(** X27. The limiter never drops an identity: one that has a stored
    history keeps one through any further checks. *)
Theorem identities_are_never_evicted
    (self : RateLimiter.t) (reqs : list (string * Q)) (client : string) :
  is_Some (RateLimiter.requests self !! client) ->
  is_Some (RateLimiter.requests (snd (RateLimiterRuns.serve self reqs)) !! client).
Proof. apply MiscFacts.serve_keeps. Qed.

Lemma identities_are_never_evicted_witness :
  is_Some (RateLimiter.requests
             (snd (RateLimiterRuns.serve
                     (snd (RateLimiter.check (RateLimiter.__init__ (Some 2)) "b" 0%Q))
                     MoreSamples.traffic)) !! "b").
Proof.
  apply (identities_are_never_evicted
           (snd (RateLimiter.check (RateLimiter.__init__ (Some 2)) "b" 0%Q))
           MoreSamples.traffic "b").
  vm_compute. eauto.
Defined.

(** X28. For [overlap < size], a text that is not blank and whose
    normalised form is shorter than the chunk size comes back whole as
    the first chunk. *)
Theorem short_text_first_chunk (self : PDFProcessor.t) (T : str) :
  PDFProcessor.chunk_overlap self < PDFProcessor.chunk_size self ->
  0 < len (PDFProcessor.normalize T) < PDFProcessor.chunk_size self ->
  exists fuel chunks,
    PDFProcessor._chunk_text fuel self T
    = Some (PDFProcessor.normalize T :: chunks).
Proof.
  intros Hsz [Hpos Hshort]. set (text := PDFProcessor.normalize T) in *.
  assert (Hfree : forall start, 0 <= start < len text ->
                    Chunking.backoff_at self text start = None).
  { intros start Hs. unfold Chunking.backoff_at.
    destruct (start + PDFProcessor.chunk_size self <? len text) eqn:E;
      [lia | reflexivity]. }
  set (n := Z.to_nat (Chunking.ceil_div (len text - 0)
               (PDFProcessor.chunk_size self - PDFProcessor.chunk_overlap self))).
  destruct (ChunkingFacts.steps_no_backoff self text Hsz Hfree n 0 (Z.le_refl 0))
    as [Hsome _].
  destruct Hsome as (tr & Htr & Hlen); [subst n; lia|].
  exists n. rewrite ChunkingFacts.chunk_text_steps. fold text.
  destruct n as [|n'].
  - rewrite ChunkingFacts.chunk_steps_out_of_fuel in Htr by lia. discriminate.
  - rewrite ChunkingFacts.chunk_steps_unfold in Htr |- * by lia.
    destruct (PDFProcessor.chunk_steps n' self text _) as [tr'|]; [|discriminate].
    simpl. eexists. f_equal. f_equal.
    rewrite ChunkingFacts.cut_backoff, Hfree by lia. simpl.
    rewrite PyStrFacts.slice_nonneg by lia.
    change (Z.to_nat 0) with 0%nat. rewrite drop_0, take_ge by (unfold len in *; lia).
    apply MiscFacts.strip_id. subst text. unfold PDFProcessor.normalize.
    apply StripFacts.strip_trimmed.
Qed.

Lemma short_text_first_chunk_witness :
  exists fuel chunks,
    PDFProcessor._chunk_text fuel (PDFProcessor.mk 40 4) Samples.plain
    = Some (PDFProcessor.normalize Samples.plain :: chunks).
Proof.
  apply (short_text_first_chunk (PDFProcessor.mk 40 4) Samples.plain).
  - simpl. lia.
  - vm_compute. split; reflexivity.
Defined.

(** ** The chat store *)

Module ChatStoreFacts.

Import ChatStore.

Section WithFileSystem.

Variable joinpath : string -> string -> string.
Variable stat_ok : string -> bool.
Variable can_write : string -> bool.

Local Abbreviation path := (_get_session_file joinpath).
Local Abbreviation add := (add_message joinpath stat_ok can_write).
Local Abbreviation history := (get_session_history joinpath stat_ok).






(** A message for a session file that cannot be written is kept in
    [current_session] only. *)
Lemma add_message_not_saved (self : t) (sid : string) (m : ChatMessage) :
  can_write (path self sid) = false ->
  files (add self sid m) = files self
  /\ current_session (add self sid m) = current_session self ++ [m].
Proof.
  intros Hwrite. unfold add_message. rewrite Hwrite.
  destruct (stat_ok _); [|auto].
  destruct (read_history _); auto.
Qed.

(** Two sessions with the same session file have the same history. *)
Lemma shared_file_shared_history (self : t) (sid sid' : string) :
  path self sid = path self sid' -> history self sid = history self sid'.
Proof. intros H. unfold get_session_history. rewrite H. reflexivity. Qed.





End WithFileSystem.

End ChatStoreFacts.


